(** * Axiprop utilities: spectral-to-temporal reconstruction kernels,
    the FBPIC laser profile and the WarpX binary writers.

    Shallow embedding of [axiprop/utils.py].  Floating-point numbers are
    idealised as real numbers ([R]); complex numbers are pairs of reals.
    Python exceptions are values of [exn] carried by the [result] monad.
    NumPy arrays of rank one are lists; arrays of rank two and three are
    records made of a shape and an indexing function. *)

From Stdlib Require Import Reals Lra Lia List ZArith NArith Bool.
From Stdlib Require Import Strings.Byte.
From Stdlib Require Import Psatz.
Import ListNotations.

Open Scope R_scope.

(** ** Exceptions and the result monad *)

Inductive exn : Type :=
| AssertionError
| ValueError
| IndexError
| OverflowError
| ZeroDivisionError
| TypeError.

Inductive result (A : Type) : Type :=
| Ok (a : A)
| Raise (e : exn).

Arguments Ok {A} a.
Arguments Raise {A} e.

Definition bind {A B : Type} (m : result A) (k : A -> result B) : result B :=
  match m with
  | Ok a => k a
  | Raise e => Raise e
  end.

Notation "x <- m ;; k" := (bind m (fun x => k))
  (at level 61, m at next level, right associativity).
Notation "m ;;; k" := (bind m (fun _ => k))
  (at level 61, right associativity).

(** [assert cond] *)
Definition py_assert (b : bool) : result unit :=
  if b then Ok tt else Raise AssertionError.

(** [for i in range(n): s = body(i, s)], stopping at the first exception.
    [prange] is the same loop: its iterations are run here in index order. *)
Definition for_range {S : Type} (n : nat) (body : nat -> S -> result S)
  (s : S) : result S :=
  fold_left (fun acc i => bind acc (body i)) (seq 0 n) (Ok s).

(** ** Complex numbers *)

Definition C : Type := (R * R)%type.

Definition Re (z : C) : R := fst z.
Definition Im (z : C) : R := snd z.
Definition RtoC (x : R) : C := (x, 0).
(** The literal [1j]. *)
Definition Ci : C := (0, 1).
Definition Cone : C := (1, 0).

Definition Cmul (a b : C) : C :=
  (Re a * Re b - Im a * Im b, Re a * Im b + Im a * Re b).

Definition Cexp (z : C) : C :=
  (exp (Re z) * cos (Im z), exp (Re z) * sin (Im z)).

(** [k * z] for a real [k]. *)
Definition Cscale (k : R) (z : C) : C := Cmul (RtoC k) z.

(** [z / s] for a real [s]. *)
Definition Cdivr (z : C) (s : R) : C := (Re z / s, Im z / s).

(** [np.abs(z)] *)
Definition Cabs (z : C) : R := sqrt (Re z * Re z + Im z * Im z).

(** ** Rank-one arrays *)

(** [a.sum()] of a real rank-one array. *)
Definition Rsum (l : list R) : R := fold_right Rplus 0 l.

(** [np.real(a)] *)
Definition real (l : list C) : list R := map Re l.

Fixpoint zip_with {A B D : Type} (f : A -> B -> D) (a : list A) (b : list B)
  : list D :=
  match a, b with
  | x :: a', y :: b' => f x y :: zip_with f a' b'
  | _, _ => []
  end.

(** [a * b] for two rank-one arrays, with NumPy's broadcasting rule: equal
    lengths multiply element-wise, a length-one operand is stretched, any
    other pair of lengths is rejected.  The kernels are compiled by numba,
    whose array product agrees with this rule on equal lengths; the results
    below about values are stated for equal lengths. *)
Definition broadcast_mul (a b : list C) : result (list C) :=
  if (length a =? length b)%nat then Ok (zip_with Cmul a b)
  else if (length b =? 1)%nat then Ok (map (fun x => Cmul x (hd Cone b)) a)
  else if (length a =? 1)%nat then Ok (map (fun y => Cmul (hd Cone a) y) b)
  else Raise ValueError.

(** Python index resolution on an axis of length [n]: negative indices count
    from the end, anything outside [-n, n) is an [IndexError]. *)
Definition py_index (n : nat) (i : Z) : result nat :=
  if ((0 <=? i) && (i <? Z.of_nat n))%Z then Ok (Z.to_nat i)
  else if ((- Z.of_nat n <=? i) && (i <? 0))%Z then Ok (Z.to_nat (Z.of_nat n + i))
  else Raise IndexError.

(** [a[i]] read and [a[i] = v] write on a real rank-one array, [i >= 0]. *)
Definition get1 (a : list R) (i : nat) : result R :=
  match nth_error a i with
  | Some v => Ok v
  | None => Raise IndexError
  end.

Fixpoint upd {A : Type} (a : list A) (i : nat) (v : A) : list A :=
  match a, i with
  | [], _ => []
  | _ :: a', O => v :: a'
  | x :: a', S i' => x :: upd a' i' v
  end.

Definition set1 (a : list R) (i : nat) (v : R) : result (list R) :=
  if (i <? length a)%nat then Ok (upd a i v) else Raise IndexError.

(** ** Arrays of rank two and three *)

Record ndarray2 (A : Type) : Type := mk2
  { shape0 : nat; shape1 : nat; item2 : nat -> nat -> A }.

Record ndarray3 (A : Type) : Type := mk3
  { dim0 : nat; dim1 : nat; dim2 : nat; item3 : nat -> nat -> nat -> A }.

Arguments mk2 {A}.
Arguments shape0 {A}.
Arguments shape1 {A}.
Arguments item2 {A}.
Arguments mk3 {A}.
Arguments dim0 {A}.
Arguments dim1 {A}.
Arguments dim2 {A}.
Arguments item3 {A}.

(** [u[:, ir]] *)
Definition col2 {A : Type} (u : ndarray2 A) (ir : nat) : result (list A) :=
  if (ir <? shape1 u)%nat
  then Ok (map (fun k => item2 u k ir) (seq 0 (shape0 u)))
  else Raise IndexError.

(** [u[:, ix, iy]] with a possibly negative [iy] *)
Definition col3 {A : Type} (u : ndarray3 A) (ix : nat) (iy : Z)
  : result (list A) :=
  if (ix <? dim1 u)%nat then
    j <- py_index (dim2 u) iy ;;
    Ok (map (fun k => item3 u k ix j) (seq 0 (dim0 u)))
  else Raise IndexError.

(** [a[i, j] = v] *)
Definition set2 {A : Type} (a : ndarray2 A) (i j : nat) (v : A)
  : result (ndarray2 A) :=
  if ((i <? shape0 a) && (j <? shape1 a))%nat
  then Ok (mk2 (shape0 a) (shape1 a)
             (fun i' j' => if ((i' =? i) && (j' =? j))%nat then v
                           else item2 a i' j'))
  else Raise IndexError.

(** [a[i, j, l] = v] *)
Definition set3 {A : Type} (a : ndarray3 A) (i j l : nat) (v : A)
  : result (ndarray3 A) :=
  if ((i <? dim0 a) && (j <? dim1 a) && (l <? dim2 a))%nat
  then Ok (mk3 (dim0 a) (dim1 a) (dim2 a)
             (fun i' j' l' =>
                if ((i' =? i) && (j' =? j) && (l' =? l))%nat then v
                else item3 a i' j' l'))
  else Raise IndexError.

(** [k * u] for a real scalar [k] *)
Definition scale2 (k : R) (u : ndarray2 C) : ndarray2 C :=
  mk2 (shape0 u) (shape1 u) (fun i j => Cscale k (item2 u i j)).

Definition scale3 (k : R) (u : ndarray3 C) : ndarray3 C :=
  mk3 (dim0 u) (dim1 u) (dim2 u) (fun i j l => Cscale k (item3 u i j l)).

(** ** Reconstruction kernels *)

Section Kernels.

(** [scipy.constants.c], the speed of light. *)
Variable c : R.

(** [np.exp(1j * kz * c * tk)] *)
Definition FFT_factor (kz : list R) (tk : R) : list C :=
  map (fun k => Cexp (Cmul (Cmul (Cmul Ci (RtoC k)) (RtoC c)) (RtoC tk))) kz.

(** [np.real(col * FFT_factor).sum()] *)
Definition mode_sum (col factor : list C) : result R :=
  p <- broadcast_mul col factor ;;
  Ok (Rsum (real p)).

Definition get_temporal_1d (u : ndarray2 C) (u_t : list R) (t kz : list R)
  (Nr_loc : nat) : result (list R) :=
  let Nr := shape1 u in
  let Nt := length t in
  py_assert (length u_t =? Nr)%nat ;;;
  for_range Nt (fun it u_t =>
    let factor := FFT_factor kz (nth it t 0) in
    for_range Nr_loc (fun ir u_t =>
      old <- get1 u_t it ;;
      column <- col2 u ir ;;
      s <- mode_sum column factor ;;
      set1 u_t it (old + s)) u_t) u_t.

Definition get_temporal_radial (u : ndarray2 C) (u_t : ndarray2 R)
  (t kz : list R) : result (ndarray2 R) :=
  let Nr := shape1 u in
  let Nt := length t in
  py_assert (shape1 u_t =? Nr)%nat ;;;
  py_assert (shape0 u_t =? Nt)%nat ;;;
  for_range Nt (fun it u_t =>
    let factor := FFT_factor kz (nth it t 0) in
    for_range Nr (fun ir u_t =>
      column <- col2 u ir ;;
      s <- mode_sum column factor ;;
      set2 u_t it ir s) u_t) u_t.

Definition get_temporal_slice2d (u : ndarray3 C) (u_t : ndarray2 R)
  (t kz : list R) : result (ndarray2 R) :=
  let Nx := dim1 u in
  let Ny := dim2 u in
  let Nt := length t in
  py_assert (shape1 u_t =? Nx)%nat ;;;
  for_range Nt (fun it u_t =>
    let factor := FFT_factor kz (nth it t 0) in
    for_range Nx (fun ix u_t =>
      column <- col3 u ix (Z.of_nat Ny / 2 - 1)%Z ;;
      s <- mode_sum column factor ;;
      set2 u_t it ix s) u_t) u_t.

(** [np.empty] returns storage of unspecified content: [garbage] stands for
    whatever the fresh array holds before the loops fill it. *)
Definition get_temporal_3d (garbage : nat -> nat -> nat -> R)
  (u : ndarray3 C) (t kz : list R) : result (ndarray3 R) :=
  let Nx := dim1 u in
  let Ny := dim2 u in
  let Nt := length t in
  let u_t := mk3 Nt Nx Ny garbage in
  for_range Nt (fun it u_t =>
    let factor := FFT_factor kz (nth it t 0) in
    for_range Nx (fun ix u_t =>
      for_range Ny (fun iy u_t =>
        column <- col3 u ix (Z.of_nat iy) ;;
        s <- mode_sum column factor ;;
        set3 u_t it ix iy s) u_t) u_t) u_t.

End Kernels.


(** ** What the kernels are meant to compute *)

(** [exp(i*theta)] *)
Definition expi (theta : R) : C := (cos theta, sin theta).

(** Direct Fourier synthesis of one spatial point at one instant: the sum
    over the frequency modes of [Re(u_k * exp(i * kz_k * c * tk))]. *)
Definition synth (c : R) (column : list C) (kz : list R) (tk : R) : R :=
  Rsum (zip_with (fun z k => Re (Cmul z (expi (k * c * tk)))) column kz).

(** The frequency column of [u] at one spatial index. *)
Definition column2 (u : ndarray2 C) (ir : nat) : list C :=
  map (fun k => item2 u k ir) (seq 0 (shape0 u)).

Definition column3 (u : ndarray3 C) (ix iy : nat) : list C :=
  map (fun k => item3 u k ix iy) (seq 0 (dim0 u)).

(** The transverse index [Ny//2 - 1] once Python has resolved it. *)
Definition mid_row (Ny : nat) : nat :=
  if (Ny =? 1)%nat then 0%nat else (Ny / 2 - 1)%nat.

Definition same_dims (a b : ndarray3 R) : Prop :=
  dim0 a = dim0 b /\ dim1 a = dim1 b /\ dim2 a = dim2 b.

(** ** Single-time evaluator *)

(** NumPy's rule for one axis of two operands. *)
Definition bdim (m n : nat) : result nat :=
  if (m =? n)%nat then Ok m
  else if (m =? 1)%nat then Ok n
  else if (n =? 1)%nat then Ok m
  else Raise ValueError.

(** Index into an operand along an axis that may have been stretched. *)
Definition bidx (dim i : nat) : nat := if (dim =? 1)%nat then 0%nat else i.

(** [a.T] *)
Definition transpose {A : Type} (a : ndarray2 A) : ndarray2 A :=
  mk2 (shape1 a) (shape0 a) (fun i j => item2 a j i).

(** [np.ones_like(u)] *)
Definition ones_like (u : ndarray2 C) : ndarray2 C :=
  mk2 (shape0 u) (shape1 u) (fun _ _ => Cone).

(** [v * a] for [v] of rank one and [a] of rank two: [v] lies along the
    last axis of [a]. *)
Definition mul_1_2 (v : list C) (a : ndarray2 C) : result (ndarray2 C) :=
  d <- bdim (length v) (shape1 a) ;;
  Ok (mk2 (shape0 a) d
        (fun i j => Cmul (nth (bidx (length v) j) v Cone)
                      (item2 a i (bidx (shape1 a) j)))).

(** [a * b] for two arrays of rank two. *)
Definition mul_2_2 (a b : ndarray2 C) : result (ndarray2 C) :=
  d0 <- bdim (shape0 a) (shape0 b) ;;
  d1 <- bdim (shape1 a) (shape1 b) ;;
  Ok (mk2 d0 d1
        (fun i j => Cmul (item2 a (bidx (shape0 a) i) (bidx (shape1 a) j))
                      (item2 b (bidx (shape0 b) i) (bidx (shape1 b) j)))).

(** [np.real(a)] *)
Definition real2 (a : ndarray2 C) : ndarray2 R :=
  mk2 (shape0 a) (shape1 a) (fun i j => Re (item2 a i j)).

(** [a.sum(0)] *)
Definition sum0 (a : ndarray2 R) : list R :=
  map (fun j => Rsum (map (fun i => item2 a i j) (seq 0 (shape0 a))))
    (seq 0 (shape1 a)).

(** [a.size] *)
Definition size2 {A : Type} (a : ndarray2 A) : nat := (shape0 a * shape1 a)%nat.

Section Profile.

(** [scipy.constants]: speed of light, elementary charge, electron mass. *)
Variables (c e m_e : R).

(** [scipy.interpolate]'s cubic spline through the points [(x_i, y_i)]: the
    fitted curve, or the exception the fit raises.  It is a library routine;
    only the boundary policy that [interp1d] wraps around it is spelled out
    below. *)
Variable cubic_spline : list R -> list R -> result (R -> R).

(** The two array products follow NumPy's broadcasting; the compiled
    function agrees with it when [kz] has one entry per frequency mode, which
    is where the results about its values are stated. *)
Definition get_E_r (t : R) (u : ndarray2 C) (kz : list R) : result (list R) :=
  Ft <- mul_1_2 (FFT_factor c kz t) (transpose (ones_like u)) ;;
  let FFT_factor := transpose Ft in
  p <- mul_2_2 u FFT_factor ;;
  let u_r := map (fun s => s / INR (size2 FFT_factor)) (sum0 (real2 p)) in
  Ok u_r.

(** Smallest and largest abscissa: [x[0]] and [x[-1]] once [interp1d] has
    sorted its [x]. *)
Definition x_min (x : list R) : R := fold_right Rmin (hd 0 x) x.
Definition x_max (x : list R) : R := fold_right Rmax (hd 0 x) x.

(** [interp1d(x, y, kind='cubic', fill_value=0.0, bounds_error=False)]:
    queries below the smallest or above the largest abscissa get
    [fill_value]. *)
Definition interp1d (x y : list R) : result (R -> R) :=
  f <- cubic_spline x y ;;
  let fill_value := 0 in
  Ok (fun x_new =>
        if Rlt_dec x_new (x_min x) then fill_value
        else if Rlt_dec (x_max x) x_new then fill_value
        else f x_new).

Record LaserProfile : Type := mkLaserProfile
  { propag_direction : R; gpu_capable : bool }.

Definition LaserProfile_init (propagation_direction : Z) (gpu : bool)
  : result LaserProfile :=
  py_assert ((propagation_direction =? -1) || (propagation_direction =? 1))%Z ;;;
  Ok (mkLaserProfile (IZR propagation_direction) gpu).

Record AxipropLaser : Type := mkAxipropLaser
  { base : LaserProfile;
    self_u : ndarray2 C;
    self_kz : list R;
    self_r : list R;
    self_time_offset : R;
    self_E0x : R;
    self_E0y : R }.

(** [a / b] on Python floats, as the scalar arguments and the constants of
    [__init__] are: a zero divisor raises. *)
Definition float_div (a b : R) : result R :=
  if Req_EM_T b 0 then Raise ZeroDivisionError else Ok (a / b).

Definition AxipropLaser_init (a0 : R) (u : ndarray2 C) (kz r : list R)
  (time_offset theta_pol lambda0 : R) : result AxipropLaser :=
  b <- LaserProfile_init 1 false ;;
  k0 <- float_div (2 * PI) lambda0 ;;
  E0 <- float_div (a0 * m_e * c ^ 2 * k0) e ;;
  Ok (mkAxipropLaser b u kz r time_offset
        (E0 * cos theta_pol) (E0 * sin theta_pol)).

(** A method call returns its value together with the object as the call
    leaves it.  [E_field] has no assignment to an attribute and hands [u],
    [kz] and [r] only to operations that build new arrays. *)
Definition E_field (self : AxipropLaser) (x y z t : R)
  : result (R * R) * AxipropLaser :=
  (u_r <- get_E_r (t + self_time_offset self) (self_u self) (self_kz self) ;;
   let r_p := sqrt (x * x + y * y) in
   fu <- interp1d (self_r self) u_r ;;
   let profile := fu r_p in
   let Ex := self_E0x self * profile in
   let Ey := self_E0y self * profile in
   Ok (Ex, Ey),
   self).

End Profile.

(** ** Amplitude generator *)

(** [a.max()] of a rank-one array; an empty array has no maximum. *)
Definition amax (l : list R) : result R :=
  match l with
  | [] => Raise ValueError
  | x :: l' => Ok (fold_left Rmax l' x)
  end.

(** [np.abs(a)**2] *)
Definition abs_sq (a : ndarray2 C) : ndarray2 R :=
  mk2 (shape0 a) (shape1 a) (fun i j => Cabs (item2 a i j) ^ 2).

(** [a /= s] for a real scalar [s] *)
Definition div2 (a : ndarray2 C) (s : R) : ndarray2 C :=
  mk2 (shape0 a) (shape1 a) (fun i j => Cdivr (item2 a i j) s).

(** [fu] receives the two broadcast grids and is applied point by point. *)
Definition laser_from_fu (fu : R -> R -> C) (kz r : list R) (normalize : bool)
  : result (ndarray2 C) :=
  let a0 := mk2 (length kz) (length r)
              (fun i j => fu (nth i kz 0 * 1) (nth j r 0 * 1)) in
  if normalize then
    m <- amax (sum0 (abs_sq a0)) ;;
    Ok (div2 a0 (sqrt m))
  else Ok a0.

(** ** WarpX binary writers *)

Definition byte_of_N (n : N) : byte :=
  match Byte.of_N n with
  | Some b => b
  | None => x00
  end.

(** The [len] low-order base-256 digits of [n], least significant first. *)
Fixpoint to_bytes_le (len : nat) (n : N) : list byte :=
  match len with
  | O => []
  | S len' => byte_of_N (n mod 256) :: to_bytes_le len' (n / 256)
  end.

(** [n.to_bytes(len, byteorder='little', signed=False)] *)
Definition to_bytes (n : N) (len : nat) : result (list byte) :=
  if (n <? 256 ^ N.of_nat len)%N then Ok (to_bytes_le len n)
  else Raise OverflowError.

(** Reading an unsigned little-endian integer back. *)
Fixpoint from_bytes_le (bs : list byte) : N :=
  match bs with
  | [] => 0
  | b :: bs' => Byte.to_N b + 256 * from_bytes_le bs'
  end%N.

Section Writers.

(** The element type of the arrays and the native encoding [tobytes] gives
    one element. *)
Variable elt : Type.
Variable elt_tobytes : elt -> list byte.

(** [a[i]] on a rank-one array *)
Definition item1 (a : list elt) (i : Z) : result elt :=
  j <- py_index (length a) i ;;
  match nth_error a j with
  | Some v => Ok v
  | None => Raise IndexError
  end.

(** [a.tobytes()]; an array of higher rank is given in C order. *)
Definition tobytes (a : list elt) : list byte := flat_map elt_tobytes a.

(** [len(a)] *)
Definition len (a : list elt) : N := N.of_nat (length a).

(** The writers return the content of the file once it is closed; [file]
    is that content so far and every [file.write] appends to it. *)
Definition write_file_unf (x y t E : list elt) : result (list byte) :=
  let file := [] in
  let flag_unif := 1%N in
  b <- to_bytes flag_unif 1 ;; let file := file ++ b in
  b <- to_bytes (len t) 4 ;; let file := file ++ b in
  b <- to_bytes (len x) 4 ;; let file := file ++ b in
  b <- to_bytes (len y) 4 ;; let file := file ++ b in
  v <- item1 t 0 ;; let file := file ++ elt_tobytes v in
  v <- item1 t (-1) ;; let file := file ++ elt_tobytes v in
  v <- item1 x 0 ;; let file := file ++ elt_tobytes v in
  v <- item1 x (-1) ;; let file := file ++ elt_tobytes v in
  file <- (if (len y =? 1)%N then
             v <- item1 y 0 ;; Ok (file ++ elt_tobytes v)
           else
             v <- item1 y 0 ;; let file := file ++ elt_tobytes v in
             v <- item1 y (-1) ;; Ok (file ++ elt_tobytes v)) ;;
  let file := file ++ tobytes E in
  Ok file.

Definition write_file (x y t E : list elt) : result (list byte) :=
  let file := [] in
  let flag_unif := 0%N in
  b <- to_bytes flag_unif 1 ;; let file := file ++ b in
  b <- to_bytes (len t) 4 ;; let file := file ++ b in
  b <- to_bytes (len x) 4 ;; let file := file ++ b in
  b <- to_bytes (len y) 4 ;; let file := file ++ b in
  let file := file ++ tobytes t in
  let file := file ++ tobytes x in
  let file := file ++ tobytes y in
  let file := file ++ tobytes E in
  Ok file.

End Writers.

(** ** Reference quantities and sample inputs *)

(** [np.ones((m, n), dtype=complex)] *)
Definition ones (m n : nat) : ndarray2 C := mk2 m n (fun _ _ => Cone).

Definition ones3 (m n p : nat) : ndarray3 C := mk3 m n p (fun _ _ _ => Cone).

(** [np.zeros((m, n))] *)
Definition zeros (m n : nat) : ndarray2 R := mk2 m n (fun _ _ => 0).

(** [a.sum(1)] *)
Definition sum1 (a : ndarray2 R) : list R :=
  map (fun i => Rsum (map (fun j => item2 a i j) (seq 0 (shape1 a))))
    (seq 0 (shape0 a)).

(** The mean over the frequency modes of [Re(u * exp(i*kz*c*t))], one value
    per radial index: the synthesis divided by the number of modes. *)
Definition mode_mean (c t : R) (u : ndarray2 C) (kz : list R) : list R :=
  map (fun ir => synth c (column2 u ir) kz t / INR (shape0 u))
    (seq 0 (shape1 u)).

(** The thirteen header bytes: flag, then the three counts. *)
Definition header (flag : byte) (nt nx ny : N) : list byte :=
  flag :: to_bytes_le 4 nt ++ to_bytes_le 4 nx ++ to_bytes_le 4 ny.

(** A profile over the [1 x 2] array of ones on the radial grid [[0, 1]],
    polarized along x with unit peak field. *)
Definition sample_laser : AxipropLaser :=
  mkAxipropLaser (mkLaserProfile 1 false) (ones 1 2) [0] [0; 1] 0 1 0.

(** Bytes [start .. stop-1] of a file. *)
Definition slice {A : Type} (f : list A) (start stop : nat) : list A :=
  firstn (stop - start) (skipn start f).

(** ** Mirror phase mask *)

(** [mirror_parabolic(f0, kz, r)]: [s_ax] has one entry per radial point and
    is laid along the last axis, [kz] along the first.  The definition is
    meant for [f0 <> 0]: at [f0 = 0] the floating-point division yields
    infinities and NaN, which the real numbers do not have. *)
Definition mirror_parabolic (f0 : R) (kz r : list R) : ndarray2 C :=
  let s_ax := map (fun rj => rj ^ 2 / 4 / f0) r in
  let val :=
    mk2 (length kz) (length r)
      (fun i j => Cexp (Cmul (Cmul (0, 2) (RtoC (nth j s_ax 0)))
                          (RtoC (nth i kz 0 * 1)))) in
  val.

(** ** Further reference quantities *)

Definition Cadd (a b : C) : C := (Re a + Re b, Im a + Im b).

(** [u + v] for two arrays of the same shape *)
Definition add2 (u v : ndarray2 C) : ndarray2 C :=
  mk2 (shape0 u) (shape1 u) (fun i j => Cadd (item2 u i j) (item2 v i j)).

Definition add3 (u v : ndarray3 C) : ndarray3 C :=
  mk3 (dim0 u) (dim1 u) (dim2 u)
    (fun i j l => Cadd (item3 u i j l) (item3 v i j l)).

(** The profile [self] with another [time_offset]. *)
Definition with_time_offset (self : AxipropLaser) (tau : R) : AxipropLaser :=
  mkAxipropLaser (base self) (self_u self) (self_kz self) (self_r self) tau
    (self_E0x self) (self_E0y self).

(** ** The profile on the heap

    A second, finer embedding of [get_E_r] and [E_field], in which arrays
    and the profile object live behind references, so that what a call does
    to storage can be stated.  Every NumPy operation of the two bodies
    ([np.exp], [np.ones_like], [.T], [*], [np.real], [.sum], [/]) builds its
    result in a new cell; none is an in-place operation. *)

(** The attributes of an [AxipropLaser] object: [u], [kz] and [r] are
    references to arrays that the object shares with their producer. *)
Record laser_obj : Type := mk_laser_obj
  { obj_u : nat;
    obj_kz : nat;
    obj_r : nat;
    obj_time_offset : R;
    obj_E0x : R;
    obj_E0y : R }.

(** What a reference may point to. *)
Inductive cell : Type :=
| ArrR (a : list R)
| ArrC (a : list C)
| ArrR2 (a : ndarray2 R)
| ArrC2 (a : ndarray2 C)
| Obj (o : laser_obj).

(** The heap holds every object created so far; a reference is a position
    in it. *)
Definition heap : Type := list cell.

(** A computation on the heap returns a value or raises, and leaves a heap
    behind in both cases. *)
Definition St (A : Type) : Type := heap -> result A * heap.

Definition st_ret {A : Type} (a : A) : St A := fun h => (Ok a, h).

Definition st_bind {A B : Type} (m : St A) (k : A -> St B) : St B :=
  fun h =>
    match m h with
    | (Ok a, h') => k a h'
    | (Raise e, h') => (Raise e, h')
    end.

Definition st_lift {A : Type} (r : result A) : St A := fun h => (r, h).

Notation "x <~ m ;; k" := (st_bind m (fun x => k))
  (at level 61, m at next level, right associativity).

(** A new object: its reference is the next free position. *)
Definition st_new (v : cell) : St nat := fun h => (Ok (length h), h ++ [v]).

(** Reading through a reference.  A reference to an object of another kind
    is outside the typing of the program; it is reported as [TypeError]. *)
Definition load_R (p : nat) : St (list R) :=
  fun h => match nth_error h p with
           | Some (ArrR a) => (Ok a, h)
           | _ => (Raise TypeError, h)
           end.

Definition load_C (p : nat) : St (list C) :=
  fun h => match nth_error h p with
           | Some (ArrC a) => (Ok a, h)
           | _ => (Raise TypeError, h)
           end.

Definition load_R2 (p : nat) : St (ndarray2 R) :=
  fun h => match nth_error h p with
           | Some (ArrR2 a) => (Ok a, h)
           | _ => (Raise TypeError, h)
           end.

Definition load_C2 (p : nat) : St (ndarray2 C) :=
  fun h => match nth_error h p with
           | Some (ArrC2 a) => (Ok a, h)
           | _ => (Raise TypeError, h)
           end.

(** [self.attr] *)
Definition getattr {A : Type} (self : nat) (attr : laser_obj -> A) : St A :=
  fun h => match nth_error h self with
           | Some (Obj o) => (Ok (attr o), h)
           | _ => (Raise TypeError, h)
           end.

Section ProfileOnHeap.

Variable c : R.
Variable cubic_spline : list R -> list R -> result (R -> R).

(** [np.exp(1j * kz * c * t)]; the products under the exponential are
    temporaries of the same expression. *)
Definition np_exp_phase (kz : nat) (t : R) : St nat :=
  a <~ load_R kz ;; st_new (ArrC (FFT_factor c a t)).

(** [np.ones_like(u)] *)
Definition np_ones_like (u : nat) : St nat :=
  a <~ load_C2 u ;; st_new (ArrC2 (ones_like a)).

(** [a.T]: a new array object over the same data; the arrays transposed
    here are temporaries that nothing writes to, so the view is kept as a
    cell of its own. *)
Definition np_T (p : nat) : St nat :=
  a <~ load_C2 p ;; st_new (ArrC2 (transpose a)).

(** [v * a] and [a * b] *)
Definition np_mul_1_2 (p q : nat) : St nat :=
  v <~ load_C p ;; a <~ load_C2 q ;;
  r <~ st_lift (mul_1_2 v a) ;; st_new (ArrC2 r).

Definition np_mul_2_2 (p q : nat) : St nat :=
  a <~ load_C2 p ;; b <~ load_C2 q ;;
  r <~ st_lift (mul_2_2 a b) ;; st_new (ArrC2 r).

(** [np.real(a)] *)
Definition np_real (p : nat) : St nat :=
  a <~ load_C2 p ;; st_new (ArrR2 (real2 a)).

(** [a.sum(0)] *)
Definition np_sum0 (p : nat) : St nat :=
  a <~ load_R2 p ;; st_new (ArrR (sum0 a)).

(** [a.size] *)
Definition np_size (p : nat) : St nat :=
  a <~ load_C2 p ;; st_ret (size2 a).

(** [a / n] *)
Definition np_div (p : nat) (n : nat) : St nat :=
  a <~ load_R p ;; st_new (ArrR (map (fun s => s / INR n) a)).

Definition get_E_r_st (t : R) (u kz : nat) : St nat :=
  phase <~ np_exp_phase kz t ;;
  o <~ np_ones_like u ;;
  oT <~ np_T o ;;
  prod <~ np_mul_1_2 phase oT ;;
  FFT_factor <~ np_T prod ;;
  p <~ np_mul_2_2 u FFT_factor ;;
  re <~ np_real p ;;
  s <~ np_sum0 re ;;
  n <~ np_size FFT_factor ;;
  u_r <~ np_div s n ;;
  st_ret u_r.

(** [interp1d(x, y, kind='cubic', fill_value=0.0, bounds_error=False)]: with
    [copy=True], the default, it copies [x] and [y] and fits the copies. *)
Definition interp1d_st (x y : nat) : St (R -> R) :=
  ax <~ load_R x ;; ay <~ load_R y ;;
  cx <~ st_new (ArrR ax) ;; cy <~ st_new (ArrR ay) ;;
  bx <~ load_R cx ;; by_ <~ load_R cy ;;
  st_lift (interp1d cubic_spline bx by_).

Definition E_field_st (self : nat) (x y z t : R) : St (R * R) :=
  time_offset <~ getattr self obj_time_offset ;;
  u <~ getattr self obj_u ;;
  kz <~ getattr self obj_kz ;;
  u_r <~ get_E_r_st (t + time_offset) u kz ;;
  let r_p := sqrt (x * x + y * y) in
  r <~ getattr self obj_r ;;
  fu <~ interp1d_st r u_r ;;
  let profile := fu r_p in
  E0x <~ getattr self obj_E0x ;;
  let Ex := E0x * profile in
  E0y <~ getattr self obj_E0y ;;
  let Ey := E0y * profile in
  st_ret (Ex, Ey).

End ProfileOnHeap.

(** The profile as values, read off a heap object and the arrays it refers
    to. *)
Definition laser_of (o : laser_obj) (u : ndarray2 C) (kz r : list R)
  : AxipropLaser :=
  mkAxipropLaser (mkLaserProfile 1 false) u kz r
    (obj_time_offset o) (obj_E0x o) (obj_E0y o).

(** A heap with one profile: the object at [0], its [u], [kz] and [r] at
    [1], [2] and [3]. *)
Definition sample_heap : heap :=
  [Obj (mk_laser_obj 1 2 3 0 1 0); ArrC2 (ones 1 2); ArrR [0]; ArrR [0; 1]].

(** A computation that only adds cells: the heap it leaves is the heap it
    found, followed by the new cells. *)
Definition grows {A : Type} (m : St A) : Prop :=
  forall h, exists l, snd (m h) = h ++ l.

(** The reference [p] points to [v]. *)
Definition holds (h : heap) (p : nat) (v : cell) : Prop :=
  nth_error h p = Some v.

(** ** Loops in the result monad *)

Lemma bind_Ok {A B : Type} (a : A) (k : A -> result B) : bind (Ok a) k = k a.
Proof. reflexivity. Qed.

Lemma fold_bind_Raise {S : Type} (body : nat -> S -> result S) (l : list nat)
  (e : exn) :
  fold_left (fun acc i => bind acc (body i)) l (Raise e) = Raise e.
Proof. induction l as [|i l IH]; simpl; auto. Qed.

Lemma for_range_0 {S : Type} (body : nat -> S -> result S) (s : S) :
  for_range 0 body s = Ok s.
Proof. reflexivity. Qed.

Lemma for_range_S {S : Type} (n : nat) (body : nat -> S -> result S) (s : S) :
  for_range (Datatypes.S n) body s = bind (for_range n body s) (body n).
Proof.
  unfold for_range. rewrite seq_S, fold_left_app. reflexivity.
Qed.

Lemma for_range_ext {S : Type} (n : nat) (body body' : nat -> S -> result S)
  (s : S) :
  (forall i s0, (i < n)%nat -> body i s0 = body' i s0) ->
  for_range n body s = for_range n body' s.
Proof.
  induction n as [|n IH]; intros H; [reflexivity|].
  rewrite !for_range_S, IH by (intros; apply H; lia).
  destruct (for_range n body' s); simpl; auto.
Qed.

(** Invariant rule for a loop whose body cannot fail under the invariant. *)
Lemma for_range_inv {S : Type} (P : nat -> S -> Prop) (n : nat)
  (body : nat -> S -> result S) (s : S) :
  P 0%nat s ->
  (forall i s0, (i < n)%nat -> P i s0 ->
     exists s1, body i s0 = Ok s1 /\ P (Datatypes.S i) s1) ->
  exists s', for_range n body s = Ok s' /\ P n s'.
Proof.
  intros H0 Hstep. induction n as [|n IH].
  - exists s. split; [reflexivity | assumption].
  - destruct IH as (s1 & E1 & P1); [intros; apply Hstep; auto; lia|].
    destruct (Hstep n s1 (Nat.lt_succ_diag_r n) P1) as (s2 & E2 & P2).
    exists s2. rewrite for_range_S, E1. simpl. auto.
Qed.

(** ** Phase factors and mode sums *)

Lemma Cexp_phase (c k tk : R) :
  Cexp (Cmul (Cmul (Cmul Ci (RtoC k)) (RtoC c)) (RtoC tk)) = expi (k * c * tk).
Proof.
  unfold Cexp, Cmul, Ci, RtoC, expi, Re, Im. cbn [fst snd].
  match goal with
  | |- (exp ?a * cos ?b, exp ?a * sin ?b) = _ =>
      replace a with 0 by ring; replace b with (k * c * tk) by ring
  end.
  rewrite exp_0. f_equal; ring.
Qed.

Lemma FFT_factor_expi (c : R) (kz : list R) (tk : R) :
  FFT_factor c kz tk = map (fun k => expi (k * c * tk)) kz.
Proof.
  unfold FFT_factor. apply map_ext. intros k. apply Cexp_phase.
Qed.

Lemma FFT_factor_length (c : R) (kz : list R) (tk : R) :
  length (FFT_factor c kz tk) = length kz.
Proof. unfold FFT_factor. apply length_map. Qed.

Lemma zip_with_map_r {A B B' D : Type} (f : A -> B' -> D) (g : B -> B')
  (a : list A) (b : list B) :
  zip_with f a (map g b) = zip_with (fun x y => f x (g y)) a b.
Proof.
  revert b. induction a as [|x a IH]; intros [|y b]; simpl; auto.
  now rewrite IH.
Qed.

Lemma map_zip_with {A B D E : Type} (h : D -> E) (f : A -> B -> D)
  (a : list A) (b : list B) :
  map h (zip_with f a b) = zip_with (fun x y => h (f x y)) a b.
Proof.
  revert b. induction a as [|x a IH]; intros [|y b]; simpl; auto.
  now rewrite IH.
Qed.

Lemma column2_length (u : ndarray2 C) (ir : nat) :
  length (column2 u ir) = shape0 u.
Proof. unfold column2. now rewrite length_map, length_seq. Qed.

Lemma column3_length (u : ndarray3 C) (ix iy : nat) :
  length (column3 u ix iy) = dim0 u.
Proof. unfold column3. now rewrite length_map, length_seq. Qed.

(** With as many wavenumbers as frequency modes no broadcasting happens and
    the mode sum is the Fourier synthesis. *)
Lemma mode_sum_synth (c : R) (col : list C) (kz : list R) (tk : R) :
  length col = length kz ->
  mode_sum col (FFT_factor c kz tk) = Ok (synth c col kz tk).
Proof.
  intros H. unfold mode_sum, broadcast_mul.
  rewrite FFT_factor_length, H, Nat.eqb_refl. simpl.
  unfold synth, real. rewrite FFT_factor_expi, zip_with_map_r, map_zip_with.
  reflexivity.
Qed.

(** ** Filling arrays cell by cell *)

Lemma upd_length {A : Type} (a : list A) (i : nat) (v : A) :
  length (upd a i v) = length a.
Proof.
  revert i. induction a as [|x a IH]; intros [|i]; simpl; auto.
Qed.

Lemma upd_nth {A : Type} (a : list A) (i j : nat) (v d : A) :
  (i < length a)%nat ->
  nth j (upd a i v) d = if (j =? i)%nat then v else nth j a d.
Proof.
  revert i j. induction a as [|x a IH]; intros [|i] [|j] H; simpl in *;
    try lia; auto.
  apply IH. lia.
Qed.

Lemma get1_nth (a : list R) (i : nat) :
  (i < length a)%nat -> get1 a i = Ok (nth i a 0).
Proof.
  intros H. unfold get1.
  destruct (nth_error a i) as [v|] eqn:E.
  - now rewrite (nth_error_nth a i 0 E).
  - apply nth_error_None in E. lia.
Qed.

Ltac bool_cases :=
  repeat match goal with
    | |- context [(?a =? ?b)%nat] => destruct (Nat.eqb_spec a b)
    | |- context [(?a <? ?b)%nat] => destruct (Nat.ltb_spec a b)
    end; simpl; try reflexivity; try lia.

Section Fill.

Variables (m n : nat) (g : nat -> nat -> R).

(** One row of a rank-two array, overwritten left to right. *)
Lemma fill_row (inner : nat -> ndarray2 R -> result (ndarray2 R))
  (it : nat) (a : ndarray2 R) :
  (forall j b, (j < n)%nat -> inner j b = set2 b it j (g it j)) ->
  (it < shape0 a)%nat -> (n <= shape1 a)%nat ->
  exists a', for_range n inner a = Ok a' /\
    shape0 a' = shape0 a /\ shape1 a' = shape1 a /\
    forall i j, item2 a' i j =
      if ((i =? it) && (j <? n))%nat then g i j else item2 a i j.
Proof.
  intros Hin Hit Hn.
  apply (for_range_inv (fun k b =>
    shape0 b = shape0 a /\ shape1 b = shape1 a /\
    forall i j, item2 b i j =
      if ((i =? it) && (j <? k))%nat then g i j else item2 a i j)).
  - repeat split. intros i j. bool_cases.
  - intros k b Hk (S0 & S1 & Hb). rewrite Hin by assumption. unfold set2.
    replace ((it <? shape0 b) && (k <? shape1 b))%nat with true
      by (symmetry; apply andb_true_iff; split; apply Nat.ltb_lt; lia).
    eexists. split; [reflexivity|]. simpl. repeat split; auto.
    intros i j. rewrite Hb. bool_cases. now subst.
Qed.

(** The first [m] rows of a rank-two array, overwritten row by row. *)
Lemma fill_rows (inner : nat -> nat -> ndarray2 R -> result (ndarray2 R))
  (a : ndarray2 R) :
  (forall it j b, (it < m)%nat -> (j < n)%nat ->
     inner it j b = set2 b it j (g it j)) ->
  (m <= shape0 a)%nat -> (n <= shape1 a)%nat ->
  exists a', for_range m (fun it b => for_range n (inner it) b) a = Ok a' /\
    shape0 a' = shape0 a /\ shape1 a' = shape1 a /\
    forall i j, item2 a' i j =
      if ((i <? m) && (j <? n))%nat then g i j else item2 a i j.
Proof.
  intros Hin Hm Hn.
  apply (for_range_inv (fun k b =>
    shape0 b = shape0 a /\ shape1 b = shape1 a /\
    forall i j, item2 b i j =
      if ((i <? k) && (j <? n))%nat then g i j else item2 a i j)).
  - repeat split.
  - intros k b Hk (S0 & S1 & Hb).
    destruct (fill_row (inner k) k b) as (b' & E & S0' & S1' & Hb');
      [intros; apply Hin; auto | lia | lia |].
    exists b'. split; [assumption|]. repeat split; try congruence.
    intros i j. rewrite Hb', Hb. bool_cases.
Qed.

(** One slot of a rank-one array, accumulated into [n] times. *)
Lemma accumulate_slot (inner : nat -> list R -> result (list R))
  (it : nat) (a : list R) :
  (forall j b, (j < n)%nat ->
     inner j b = (old <- get1 b it ;; set1 b it (old + g it j))) ->
  (it < length a)%nat ->
  exists a', for_range n inner a = Ok a' /\ length a' = length a /\
    forall i, nth i a' 0 =
      if (i =? it)%nat then nth i a 0 + Rsum (map (g it) (seq 0 n))
      else nth i a 0.
Proof.
  intros Hin Hit.
  apply (for_range_inv (fun k b =>
    length b = length a /\
    forall i, nth i b 0 =
      if (i =? it)%nat then nth i a 0 + Rsum (map (g it) (seq 0 k))
      else nth i a 0)).
  - split; [reflexivity|]. intros i. simpl. bool_cases. lra.
  - intros k b Hk (L & Hb). rewrite Hin by assumption.
    rewrite get1_nth by lia. rewrite bind_Ok. unfold set1.
    replace (it <? length b)%nat with true by (symmetry; apply Nat.ltb_lt; lia).
    eexists. split; [reflexivity|]. split; [now rewrite upd_length|].
    intros i. rewrite upd_nth by lia. rewrite !Hb, Nat.eqb_refl.
    rewrite seq_S, map_app. unfold Rsum. rewrite fold_right_app. simpl.
    bool_cases. subst i. clear.
    induction (map (g it) (seq 0 k)) as [|x l IH]; simpl; lra.
Qed.

(** The first [m] slots of a rank-one array, each accumulated into. *)
Lemma accumulate_slots (inner : nat -> nat -> list R -> result (list R))
  (a : list R) :
  (forall it j b, (it < m)%nat -> (j < n)%nat ->
     inner it j b = (old <- get1 b it ;; set1 b it (old + g it j))) ->
  (m <= length a)%nat ->
  exists a', for_range m (fun it b => for_range n (inner it) b) a = Ok a' /\
    length a' = length a /\
    forall i, nth i a' 0 =
      if (i <? m)%nat then nth i a 0 + Rsum (map (g i) (seq 0 n))
      else nth i a 0.
Proof.
  intros Hin Hm.
  apply (for_range_inv (fun k b =>
    length b = length a /\
    forall i, nth i b 0 =
      if (i <? k)%nat then nth i a 0 + Rsum (map (g i) (seq 0 n))
      else nth i a 0)).
  - split; reflexivity.
  - intros k b Hk (L & Hb).
    destruct (accumulate_slot (inner k) k b) as (b' & E & L' & Hb');
      [intros; apply Hin; auto | lia |].
    exists b'. split; [assumption|]. split; [congruence|].
    intros i. rewrite Hb', !Hb. bool_cases. now subst.
Qed.

End Fill.

(** ** The kernels on well-shaped inputs *)

Lemma col2_column2 (u : ndarray2 C) (ir : nat) :
  (ir < shape1 u)%nat -> col2 u ir = Ok (column2 u ir).
Proof.
  intros H. unfold col2.
  now replace (ir <? shape1 u)%nat with true by (symmetry; now apply Nat.ltb_lt).
Qed.

Lemma py_index_nonneg (n i : nat) :
  (i < n)%nat -> py_index n (Z.of_nat i) = Ok i.
Proof.
  intros H. unfold py_index.
  replace ((0 <=? Z.of_nat i) && (Z.of_nat i <? Z.of_nat n))%Z with true.
  - now rewrite Nat2Z.id.
  - symmetry. apply andb_true_iff. split; [apply Z.leb_le | apply Z.ltb_lt]; lia.
Qed.


Lemma mid_row_lt (Ny : nat) : (1 <= Ny)%nat -> (mid_row Ny < Ny)%nat.
Proof.
  intros H. unfold mid_row. destruct (Nat.eqb_spec Ny 1); [lia|].
  pose proof (Nat.div_lt Ny 2). lia.
Qed.

Lemma py_index_mid_row (Ny : nat) :
  (1 <= Ny)%nat -> py_index Ny (Z.of_nat Ny / 2 - 1)%Z = Ok (mid_row Ny).
Proof.
  intros H. unfold py_index, mid_row.
  destruct (Nat.eqb_spec Ny 1) as [->|Hne]; [reflexivity|].
  assert (H2 : (Z.of_nat Ny / 2 = Z.of_nat (Ny / 2))%Z)
    by (now rewrite (Nat2Z.inj_div Ny 2)).
  assert (1 <= Ny / 2)%nat
    by (apply (Nat.div_le_lower_bound Ny 2 1); lia).
  pose proof (Nat.div_lt Ny 2).
  replace ((0 <=? Z.of_nat Ny / 2 - 1) &&
           (Z.of_nat Ny / 2 - 1 <? Z.of_nat Ny))%Z with true.
  - f_equal. rewrite H2. lia.
  - symmetry. apply andb_true_iff.
    split; [apply Z.leb_le | apply Z.ltb_lt]; rewrite H2; lia.
Qed.

Lemma col3_column3 (u : ndarray3 C) (ix : nat) (iy : Z) (j : nat) :
  (ix < dim1 u)%nat -> py_index (dim2 u) iy = Ok j ->
  col3 u ix iy = Ok (column3 u ix j).
Proof.
  intros H E. unfold col3.
  replace (ix <? dim1 u)%nat with true by (symmetry; now apply Nat.ltb_lt).
  now rewrite E.
Qed.

Section KernelSpecs.

Variable c : R.

Lemma get_temporal_radial_ok (u : ndarray2 C) (u_t : ndarray2 R)
  (t kz : list R) :
  length kz = shape0 u ->
  shape1 u_t = shape1 u -> shape0 u_t = length t ->
  exists out, get_temporal_radial c u u_t t kz = Ok out /\
    shape0 out = shape0 u_t /\ shape1 out = shape1 u_t /\
    forall it ir, item2 out it ir =
      if ((it <? length t) && (ir <? shape1 u))%nat
      then synth c (column2 u ir) kz (nth it t 0)
      else item2 u_t it ir.
Proof.
  intros Hkz H1 H0. unfold get_temporal_radial. cbv zeta.
  apply Nat.eqb_eq in H1 as E1. apply Nat.eqb_eq in H0 as E0.
  rewrite E1, E0. cbn [py_assert bind].
  apply (fill_rows (length t) (shape1 u)
           (fun it ir => synth c (column2 u ir) kz (nth it t 0))
           (fun it ir b =>
              column <- col2 u ir ;;
              s <- mode_sum column (FFT_factor c kz (nth it t 0)) ;;
              set2 b it ir s)); try lia.
  intros it j b Hit Hj. rewrite col2_column2 by assumption. cbn [bind].
  rewrite mode_sum_synth by (now rewrite column2_length). reflexivity.
Qed.

Lemma get_temporal_slice2d_ok (u : ndarray3 C) (u_t : ndarray2 R)
  (t kz : list R) :
  length kz = dim0 u ->
  shape1 u_t = dim1 u -> (length t <= shape0 u_t)%nat -> (1 <= dim2 u)%nat ->
  exists out, get_temporal_slice2d c u u_t t kz = Ok out /\
    shape0 out = shape0 u_t /\ shape1 out = shape1 u_t /\
    forall it ix, item2 out it ix =
      if ((it <? length t) && (ix <? dim1 u))%nat
      then synth c (column3 u ix (mid_row (dim2 u))) kz (nth it t 0)
      else item2 u_t it ix.
Proof.
  intros Hkz H1 H0 Hy. unfold get_temporal_slice2d. cbv zeta.
  apply Nat.eqb_eq in H1 as E1. rewrite E1. cbn [py_assert bind].
  apply (fill_rows (length t) (dim1 u)
           (fun it ix => synth c (column3 u ix (mid_row (dim2 u))) kz
                           (nth it t 0))
           (fun it ix b =>
              column <- col3 u ix (Z.of_nat (dim2 u) / 2 - 1)%Z ;;
              s <- mode_sum column (FFT_factor c kz (nth it t 0)) ;;
              set2 b it ix s)); try lia.
  intros it j b Hit Hj.
  rewrite (col3_column3 u j _ (mid_row (dim2 u)))
    by (auto using py_index_mid_row).
  cbn [bind]. rewrite mode_sum_synth by (now rewrite column3_length).
  reflexivity.
Qed.

Lemma get_temporal_1d_ok (u : ndarray2 C) (u_t t kz : list R) (Nr_loc : nat) :
  length kz = shape0 u ->
  length u_t = shape1 u -> (length t <= length u_t)%nat ->
  (Nr_loc <= shape1 u)%nat ->
  exists out, get_temporal_1d c u u_t t kz Nr_loc = Ok out /\
    length out = length u_t /\
    forall it, nth it out 0 =
      if (it <? length t)%nat
      then nth it u_t 0 +
           Rsum (map (fun ir => synth c (column2 u ir) kz (nth it t 0))
                   (seq 0 Nr_loc))
      else nth it u_t 0.
Proof.
  intros Hkz H1 H0 Hloc. unfold get_temporal_1d. cbv zeta.
  apply Nat.eqb_eq in H1 as E1. rewrite E1. cbn [py_assert bind].
  apply (accumulate_slots (length t) Nr_loc
           (fun it ir => synth c (column2 u ir) kz (nth it t 0))
           (fun it ir b =>
              old <- get1 b it ;;
              column <- col2 u ir ;;
              s <- mode_sum column (FFT_factor c kz (nth it t 0)) ;;
              set1 b it (old + s))); try lia.
  intros it j b Hit Hj. destruct (get1 b it); [|reflexivity]. cbn [bind].
  rewrite col2_column2 by lia. cbn [bind].
  rewrite mode_sum_synth by (now rewrite column2_length). reflexivity.
Qed.

End KernelSpecs.

Section Fill3.

Variables (m n p : nat) (g : nat -> nat -> nat -> R).


Lemma fill_line (inner : nat -> ndarray3 R -> result (ndarray3 R))
  (it ix : nat) (a : ndarray3 R) :
  (forall l b, (l < p)%nat -> inner l b = set3 b it ix l (g it ix l)) ->
  (it < dim0 a)%nat -> (ix < dim1 a)%nat -> (p <= dim2 a)%nat ->
  exists a', for_range p inner a = Ok a' /\ same_dims a' a /\
    forall i j l, item3 a' i j l =
      if ((i =? it) && (j =? ix) && (l <? p))%nat then g i j l
      else item3 a i j l.
Proof.
  intros Hin Hit Hix Hp.
  apply (for_range_inv (fun k b =>
    same_dims b a /\
    forall i j l, item3 b i j l =
      if ((i =? it) && (j =? ix) && (l <? k))%nat then g i j l
      else item3 a i j l)).
  - repeat split. intros i j l. bool_cases.
  - intros k b Hk ((D0 & D1 & D2) & Hb). rewrite Hin by assumption.
    unfold set3.
    replace ((it <? dim0 b) && (ix <? dim1 b) && (k <? dim2 b))%nat with true
      by (symmetry; rewrite !andb_true_iff; repeat split; apply Nat.ltb_lt; lia).
    eexists. split; [reflexivity|]. simpl. repeat split; auto.
    intros i j l. rewrite Hb. bool_cases. now subst.
Qed.

Lemma fill_plane (inner : nat -> nat -> ndarray3 R -> result (ndarray3 R))
  (it : nat) (a : ndarray3 R) :
  (forall j l b, (j < n)%nat -> (l < p)%nat ->
     inner j l b = set3 b it j l (g it j l)) ->
  (it < dim0 a)%nat -> (n <= dim1 a)%nat -> (p <= dim2 a)%nat ->
  exists a', for_range n (fun j b => for_range p (inner j) b) a = Ok a' /\
    same_dims a' a /\
    forall i j l, item3 a' i j l =
      if ((i =? it) && (j <? n) && (l <? p))%nat then g i j l
      else item3 a i j l.
Proof.
  intros Hin Hit Hn Hp.
  apply (for_range_inv (fun k b =>
    same_dims b a /\
    forall i j l, item3 b i j l =
      if ((i =? it) && (j <? k) && (l <? p))%nat then g i j l
      else item3 a i j l)).
  - repeat split. intros i j l. bool_cases.
  - intros k b Hk ((D0 & D1 & D2) & Hb).
    destruct (fill_line (inner k) it k b) as (b' & E & (D0' & D1' & D2') & Hb');
      [intros; apply Hin; auto | lia | lia | lia |].
    exists b'. split; [assumption|]. repeat split; try congruence.
    intros i j l. rewrite Hb', Hb. bool_cases.
Qed.

Lemma fill_volume
  (inner : nat -> nat -> nat -> ndarray3 R -> result (ndarray3 R))
  (a : ndarray3 R) :
  (forall i j l b, (i < m)%nat -> (j < n)%nat -> (l < p)%nat ->
     inner i j l b = set3 b i j l (g i j l)) ->
  (m <= dim0 a)%nat -> (n <= dim1 a)%nat -> (p <= dim2 a)%nat ->
  exists a',
    for_range m (fun i b =>
      for_range n (fun j b => for_range p (inner i j) b) b) a = Ok a' /\
    same_dims a' a /\
    forall i j l, item3 a' i j l =
      if ((i <? m) && (j <? n) && (l <? p))%nat then g i j l
      else item3 a i j l.
Proof.
  intros Hin Hm Hn Hp.
  apply (for_range_inv (fun k b =>
    same_dims b a /\
    forall i j l, item3 b i j l =
      if ((i <? k) && (j <? n) && (l <? p))%nat then g i j l
      else item3 a i j l)).
  - repeat split.
  - intros k b Hk ((D0 & D1 & D2) & Hb).
    destruct (fill_plane (inner k) k b) as (b' & E & (D0' & D1' & D2') & Hb');
      [intros; apply Hin; auto | lia | lia | lia |].
    exists b'. split; [assumption|]. repeat split; try congruence.
    intros i j l. rewrite Hb', Hb. bool_cases.
Qed.

End Fill3.

Lemma get_temporal_3d_ok (c : R) (garbage : nat -> nat -> nat -> R)
  (u : ndarray3 C) (t kz : list R) :
  length kz = dim0 u ->
  exists out, get_temporal_3d c garbage u t kz = Ok out /\
    dim0 out = length t /\ dim1 out = dim1 u /\ dim2 out = dim2 u /\
    forall it ix iy, (it < length t)%nat -> (ix < dim1 u)%nat ->
      (iy < dim2 u)%nat ->
      item3 out it ix iy = synth c (column3 u ix iy) kz (nth it t 0).
Proof.
  intros Hkz. unfold get_temporal_3d. cbv zeta.
  destruct (fill_volume (length t) (dim1 u) (dim2 u)
           (fun it ix iy => synth c (column3 u ix iy) kz (nth it t 0))
           (fun it ix iy b =>
              column <- col3 u ix (Z.of_nat iy) ;;
              s <- mode_sum column (FFT_factor c kz (nth it t 0)) ;;
              set3 b it ix iy s)
           (mk3 (length t) (dim1 u) (dim2 u) garbage))
    as (out & E & (D0 & D1 & D2) & Hout); simpl; try lia.
  - intros it ix iy b Hit Hix Hiy.
    rewrite (col3_column3 u ix _ iy) by (auto using py_index_nonneg).
    cbn [bind]. rewrite mode_sum_synth by (now rewrite column3_length).
    reflexivity.
  - exists out. split; [exact E|]. simpl in *. repeat split; auto.
    intros it ix iy Hit Hix Hiy. rewrite Hout.
    apply Nat.ltb_lt in Hit, Hix, Hiy. now rewrite Hit, Hix, Hiy.
Qed.

(** ** Concrete scenario of the accumulate kernel *)

Lemma synth_at_0 (c : R) (col : list C) (kz : list R) :
  length col = length kz -> synth c col kz 0 = Rsum (map Re col).
Proof.
  unfold synth. revert kz.
  induction col as [|z col IH]; intros [|k kz] H; simpl in *; try lia; auto.
  rewrite IH by lia. f_equal.
  unfold Cmul, expi, Re, Im. cbn [fst snd].
  replace (k * c * 0) with 0 by ring. rewrite cos_0, sin_0. ring.
Qed.

Lemma list4_ext (l : list R) (a b c d : R) :
  length l = 4%nat ->
  nth 0 l 0 = a -> nth 1 l 0 = b -> nth 2 l 0 = c -> nth 3 l 0 = d ->
  l = [a; b; c; d].
Proof.
  destruct l as [|x0 [|x1 [|x2 [|x3 [|x4 l]]]]]; simpl; intros L; try lia.
  intros -> -> -> ->. reflexivity.
Qed.

Lemma get_temporal_1d_ones34 (v0 v1 v2 v3 : R) :
  get_temporal_1d 1 (ones 3 4) [v0; v1; v2; v3] [0] [0; PI; 2 * PI] 4
  = Ok [v0 + 12; v1; v2; v3].
Proof.
  destruct (get_temporal_1d_ok 1 (ones 3 4) [v0; v1; v2; v3] [0]
              [0; PI; 2 * PI] 4) as (out & E & L & Hout);
    try reflexivity; simpl; try lia.
  rewrite E. f_equal. apply list4_ext; [exact L | rewrite Hout ..]; simpl;
    try reflexivity.
  rewrite !synth_at_0 by reflexivity. unfold column2, ones, Cone. simpl.
  unfold Re. simpl. lra.
Qed.

(** C3, as the code has it: with [u] the [3 x 4] array of [1+0i],
    [kz = [0, pi, 2*pi]], [c = 1], [t = [0]], [Nr_loc = 4] and a [u_t] of the
    four slots the kernel's assertion asks for, the accumulate kernel adds
    [4 * (1 + cos 0 + cos 0) = 12] into the existing value of [u_t[0]] and
    leaves the other slots as they were. *)
Theorem get_temporal_1d_scenario (v0 v1 v2 v3 : R) :
  exists out,
    get_temporal_1d 1 (ones 3 4) [v0; v1; v2; v3] [0] [0; PI; 2 * PI] 4
    = Ok out /\
    nth 0 out 0 = v0 + 4 * (1 + cos 0 + cos 0) /\
    nth 0 out 0 = v0 + 12 /\
    skipn 1 out = [v1; v2; v3].
Proof.
  exists [v0 + 12; v1; v2; v3]. rewrite get_temporal_1d_ones34.
  repeat split. simpl. rewrite cos_0. lra.
Qed.

(** C3, as the spec states it, fails: from [u_t[0] = 0] the kernel produces
    [12], not [4]; and on a [u_t] of one slot per requested time the
    assertion fires before anything is added. *)
Lemma get_temporal_1d_scenario_not_4 :
  get_temporal_1d 1 (ones 3 4) [0; 0; 0; 0] [0] [0; PI; 2 * PI] 4
  = Ok [12; 0; 0; 0] /\
  nth 0 [12; 0; 0; 0] 0 <> 4 * (1 + cos PI + cos (2 * PI)) /\
  get_temporal_1d 1 (ones 3 4) [0] [0] [0; PI; 2 * PI] 4
  = Raise AssertionError.
Proof.
  split; [|split].
  - rewrite get_temporal_1d_ones34. do 2 f_equal. lra.
  - simpl. rewrite cos_PI, cos_2PI. lra.
  - reflexivity.
Qed.

(** ** Transverse-slice kernel *)

(** C6: for [u] of shape [[Nkz, Nx, Ny]] with a non-empty y-axis, one
    wavenumber per mode and a [u_t] of [Nx] columns and at least [len(t)]
    rows, the transverse-slice kernel succeeds and overwrites [u_t[it, ix]]
    with the sum over the frequency axis of
    [Re(u[:, ix, Ny//2 - 1] * exp(i*kz*c*t[it]))]; only that one line of the
    y-axis is read, and every other cell of [u_t] keeps its value. *)
Theorem get_temporal_slice2d_mid_line (c : R) (u : ndarray3 C)
  (u_t : ndarray2 R) (t kz : list R) :
  length kz = dim0 u ->
  shape1 u_t = dim1 u -> (length t <= shape0 u_t)%nat -> (1 <= dim2 u)%nat ->
  exists out iy,
    py_index (dim2 u) (Z.of_nat (dim2 u) / 2 - 1)%Z = Ok iy /\
    get_temporal_slice2d c u u_t t kz = Ok out /\
    shape0 out = shape0 u_t /\ shape1 out = shape1 u_t /\
    (forall it ix, (it < length t)%nat -> (ix < dim1 u)%nat ->
       item2 out it ix =
       Rsum (zip_with (fun z k => Re (Cmul z (expi (k * c * nth it t 0))))
               (map (fun ikz => item3 u ikz ix iy) (seq 0 (dim0 u))) kz)) /\
    (forall it ix, (length t <= it)%nat \/ (dim1 u <= ix)%nat ->
       item2 out it ix = item2 u_t it ix).
Proof.
  intros Hkz H1 H0 Hy.
  destruct (get_temporal_slice2d_ok c u u_t t kz Hkz H1 H0 Hy)
    as (out & E & S0 & S1 & Hout).
  exists out, (mid_row (dim2 u)).
  split; [now apply py_index_mid_row|]. split; [exact E|].
  repeat split; auto.
  - intros it ix Hit Hix. rewrite Hout.
    apply Nat.ltb_lt in Hit, Hix. now rewrite Hit, Hix.
  - intros it ix H. rewrite Hout. bool_cases.
Qed.

Lemma get_temporal_slice2d_mid_line_witness :
  exists out iy,
    py_index 2 (Z.of_nat 2 / 2 - 1)%Z = Ok iy /\
    get_temporal_slice2d 1 (ones3 1 1 2) (zeros 1 1) [0] [0] = Ok out /\
    shape0 out = 1%nat /\ shape1 out = 1%nat /\
    (forall it ix, (it < 1)%nat -> (ix < 1)%nat ->
       item2 out it ix =
       Rsum (zip_with (fun z k => Re (Cmul z (expi (k * 1 * nth it [0] 0))))
               (map (fun ikz => item3 (ones3 1 1 2) ikz ix iy) (seq 0 1)) [0])) /\
    (forall it ix, (1 <= it)%nat \/ (1 <= ix)%nat ->
       item2 out it ix = item2 (zeros 1 1) it ix).
Proof.
  apply (get_temporal_slice2d_mid_line 1 (ones3 1 1 2) (zeros 1 1) [0] [0]);
    simpl; lia.
Defined.

(** C10: for every [Ny >= 1] the index [Ny//2 - 1] resolves to a row of the
    y-axis; for [Ny = 1] it is [-1], which wraps to row [0], and the kernel
    then synthesizes that single row instead of failing. *)
Theorem get_temporal_slice2d_index_valid :
  (forall Ny, (1 <= Ny)%nat ->
     exists j, py_index Ny (Z.of_nat Ny / 2 - 1)%Z = Ok j /\ (j < Ny)%nat) /\
  (forall (c : R) (u : ndarray3 C) (u_t : ndarray2 R) (t kz : list R),
     dim2 u = 1%nat ->
     length kz = dim0 u -> shape1 u_t = dim1 u ->
     (length t <= shape0 u_t)%nat ->
     (Z.of_nat (dim2 u) / 2 - 1 = -1)%Z /\
     py_index (dim2 u) (-1) = Ok 0%nat /\
     exists out,
       get_temporal_slice2d c u u_t t kz = Ok out /\
       forall it ix, (it < length t)%nat -> (ix < dim1 u)%nat ->
         item2 out it ix = synth c (column3 u ix 0) kz (nth it t 0)).
Proof.
  split.
  - intros Ny H. exists (mid_row Ny).
    split; [now apply py_index_mid_row | now apply mid_row_lt].
  - intros c u u_t t kz Hy Hkz H1 H0.
    rewrite Hy. split; [reflexivity|]. split; [reflexivity|].
    destruct (get_temporal_slice2d_ok c u u_t t kz Hkz H1 H0)
      as (out & E & _ & _ & Hout); [lia|].
    exists out. split; [exact E|].
    intros it ix Hit Hix. rewrite Hout, Hy.
    apply Nat.ltb_lt in Hit, Hix. now rewrite Hit, Hix.
Qed.

Lemma get_temporal_slice2d_index_valid_witness :
  (exists j, py_index 1 (Z.of_nat 1 / 2 - 1)%Z = Ok j /\ (j < 1)%nat) /\
  (Z.of_nat (dim2 (ones3 1 1 1)) / 2 - 1 = -1)%Z /\
  py_index (dim2 (ones3 1 1 1)) (-1) = Ok 0%nat /\
  exists out,
    get_temporal_slice2d 1 (ones3 1 1 1) (zeros 1 1) [0] [0] = Ok out /\
    forall it ix, (it < length [0])%nat -> (ix < dim1 (ones3 1 1 1))%nat ->
      item2 out it ix = synth 1 (column3 (ones3 1 1 1) ix 0) [0] (nth it [0] 0).
Proof.
  split.
  - apply (proj1 get_temporal_slice2d_index_valid 1%nat). lia.
  - apply (proj2 get_temporal_slice2d_index_valid 1 (ones3 1 1 1) (zeros 1 1)
             [0] [0]); simpl; lia.
Defined.

(** ** Linearity of the synthesis *)

Lemma Rsum_cons (x : R) (l : list R) : Rsum (x :: l) = x + Rsum l.
Proof. reflexivity. Qed.

Lemma synth_scale (c k : R) (col : list C) (kz : list R) (tk : R) :
  synth c (map (Cscale k) col) kz tk = k * synth c col kz tk.
Proof.
  unfold synth. revert kz.
  induction col as [|z col IH]; intros [|w kz]; cbn [map zip_with];
    try (unfold Rsum; simpl; ring).
  rewrite !Rsum_cons, IH.
  unfold Cscale, Cmul, RtoC, Re, Im, expi. cbn [fst snd]. ring.
Qed.

Lemma column2_scale (k : R) (u : ndarray2 C) (ir : nat) :
  column2 (scale2 k u) ir = map (Cscale k) (column2 u ir).
Proof. unfold column2, scale2. simpl. now rewrite map_map. Qed.

Lemma column3_scale (k : R) (u : ndarray3 C) (ix iy : nat) :
  column3 (scale3 k u) ix iy = map (Cscale k) (column3 u ix iy).
Proof. unfold column3, scale3. simpl. now rewrite map_map. Qed.

Lemma Rsum_scale (k : R) (f : nat -> R) (l : list nat) :
  Rsum (map (fun i => k * f i) l) = k * Rsum (map f l).
Proof. induction l as [|x l IH]; simpl; [ring | rewrite IH; ring]. Qed.

(** C5: scaling [u] by a real constant [k] scales what every kernel writes
    by [k]: the cells of the radial-resolved, transverse-slice and
    full-volume outputs, and the amount the accumulate kernel adds into each
    slot of [u_t]. *)
Theorem synthesis_linear (c k : R) :
  (forall (u : ndarray2 C) (u_t t kz : list R) (Nr_loc : nat),
     length kz = shape0 u -> length u_t = shape1 u ->
     (length t <= length u_t)%nat -> (Nr_loc <= shape1 u)%nat ->
     exists out out',
       get_temporal_1d c u u_t t kz Nr_loc = Ok out /\
       get_temporal_1d c (scale2 k u) u_t t kz Nr_loc = Ok out' /\
       forall it, nth it out' 0 - nth it u_t 0
                  = k * (nth it out 0 - nth it u_t 0)) /\
  (forall (u : ndarray2 C) (u_t : ndarray2 R) (t kz : list R),
     length kz = shape0 u ->
     shape1 u_t = shape1 u -> shape0 u_t = length t ->
     exists out out',
       get_temporal_radial c u u_t t kz = Ok out /\
       get_temporal_radial c (scale2 k u) u_t t kz = Ok out' /\
       forall it ir, (it < length t)%nat -> (ir < shape1 u)%nat ->
         item2 out' it ir = k * item2 out it ir) /\
  (forall (u : ndarray3 C) (u_t : ndarray2 R) (t kz : list R),
     length kz = dim0 u ->
     shape1 u_t = dim1 u -> (length t <= shape0 u_t)%nat ->
     (1 <= dim2 u)%nat ->
     exists out out',
       get_temporal_slice2d c u u_t t kz = Ok out /\
       get_temporal_slice2d c (scale3 k u) u_t t kz = Ok out' /\
       forall it ix, (it < length t)%nat -> (ix < dim1 u)%nat ->
         item2 out' it ix = k * item2 out it ix) /\
  (forall (garbage garbage' : nat -> nat -> nat -> R) (u : ndarray3 C)
     (t kz : list R),
     length kz = dim0 u ->
     exists out out',
       get_temporal_3d c garbage u t kz = Ok out /\
       get_temporal_3d c garbage' (scale3 k u) t kz = Ok out' /\
       forall it ix iy, (it < length t)%nat -> (ix < dim1 u)%nat ->
         (iy < dim2 u)%nat ->
         item3 out' it ix iy = k * item3 out it ix iy).
Proof.
  repeat split.
  - intros u u_t t kz Nr_loc Hkz H1 H0 Hloc.
    destruct (get_temporal_1d_ok c u u_t t kz Nr_loc)
      as (out & E & _ & Hout); auto.
    destruct (get_temporal_1d_ok c (scale2 k u) u_t t kz Nr_loc)
      as (out' & E' & _ & Hout'); auto.
    exists out, out'. repeat split; auto.
    intros it. rewrite Hout, Hout'.
    destruct (it <? length t)%nat; [|ring].
    rewrite (map_ext _ (fun i => k * synth c (column2 u i) kz (nth it t 0)))
      by (intros; now rewrite column2_scale, synth_scale).
    rewrite (Rsum_scale k (fun ir => synth c (column2 u ir) kz (nth it t 0))).
    ring.
  - intros u u_t t kz Hkz H1 H0.
    destruct (get_temporal_radial_ok c u u_t t kz)
      as (out & E & _ & _ & Hout); auto.
    destruct (get_temporal_radial_ok c (scale2 k u) u_t t kz)
      as (out' & E' & _ & _ & Hout'); auto.
    exists out, out'. repeat split; auto.
    intros it ir Hit Hir. rewrite Hout, Hout'. simpl.
    apply Nat.ltb_lt in Hit, Hir. rewrite Hit, Hir. simpl.
    now rewrite column2_scale, synth_scale.
  - intros u u_t t kz Hkz H1 H0 Hy.
    destruct (get_temporal_slice2d_ok c u u_t t kz)
      as (out & E & _ & _ & Hout); auto.
    destruct (get_temporal_slice2d_ok c (scale3 k u) u_t t kz)
      as (out' & E' & _ & _ & Hout'); auto.
    exists out, out'. repeat split; auto.
    intros it ix Hit Hix. rewrite Hout, Hout'. simpl.
    apply Nat.ltb_lt in Hit, Hix. rewrite Hit, Hix. simpl.
    now rewrite column3_scale, synth_scale.
  - intros g g' u t kz Hkz.
    destruct (get_temporal_3d_ok c g u t kz)
      as (out & E & _ & _ & _ & Hout); auto.
    destruct (get_temporal_3d_ok c g' (scale3 k u) t kz)
      as (out' & E' & _ & _ & _ & Hout'); auto.
    exists out, out'. repeat split; auto.
    intros it ix iy Hit Hix Hiy.
    rewrite Hout by assumption. rewrite Hout' by assumption.
    now rewrite column3_scale, synth_scale.
Qed.

Lemma synthesis_linear_witness :
  (exists out out',
     get_temporal_1d 1 (ones 1 1) [5] [0] [0] 1 = Ok out /\
     get_temporal_1d 1 (scale2 2 (ones 1 1)) [5] [0] [0] 1 = Ok out' /\
     forall it, nth it out' 0 - nth it [5] 0
                = 2 * (nth it out 0 - nth it [5] 0)) /\
  (exists out out',
     get_temporal_radial 1 (ones 1 1) (zeros 1 1) [0] [0] = Ok out /\
     get_temporal_radial 1 (scale2 2 (ones 1 1)) (zeros 1 1) [0] [0]
     = Ok out' /\
     forall it ir, (it < 1)%nat -> (ir < 1)%nat ->
       item2 out' it ir = 2 * item2 out it ir) /\
  (exists out out',
     get_temporal_slice2d 1 (ones3 1 1 1) (zeros 1 1) [0] [0] = Ok out /\
     get_temporal_slice2d 1 (scale3 2 (ones3 1 1 1)) (zeros 1 1) [0] [0]
     = Ok out' /\
     forall it ix, (it < 1)%nat -> (ix < 1)%nat ->
       item2 out' it ix = 2 * item2 out it ix) /\
  (exists out out',
     get_temporal_3d 1 (fun _ _ _ => 0) (ones3 1 1 1) [0] [0] = Ok out /\
     get_temporal_3d 1 (fun _ _ _ => 7) (scale3 2 (ones3 1 1 1)) [0] [0]
     = Ok out' /\
     forall it ix iy, (it < 1)%nat -> (ix < 1)%nat -> (iy < 1)%nat ->
       item3 out' it ix iy = 2 * item3 out it ix iy).
Proof.
  destruct (synthesis_linear 1 2) as (L1 & L2 & L3 & L4).
  split; [|split; [|split]].
  - apply (L1 (ones 1 1) [5] [0] [0] 1%nat); simpl; lia.
  - apply (L2 (ones 1 1) (zeros 1 1) [0] [0]); reflexivity.
  - apply (L3 (ones3 1 1 1) (zeros 1 1) [0] [0]); simpl; lia.
  - apply (L4 (fun _ _ _ => 0) (fun _ _ _ => 7) (ones3 1 1 1) [0] [0]).
    reflexivity.
Defined.

(** ** Single-time evaluator *)

Lemma bdim_same (n : nat) : bdim n n = Ok n.
Proof. unfold bdim. now rewrite Nat.eqb_refl. Qed.

Lemma bidx_lt (d i : nat) : (i < d)%nat -> bidx d i = i.
Proof. unfold bidx. destruct (Nat.eqb_spec d 1); lia. Qed.

Lemma zip_with_seq {A B D : Type} (f : A -> B -> D) (g : nat -> A)
  (l : list B) (d : B) (s : nat) :
  zip_with f (map g (seq s (length l))) l
  = map (fun i => f (g i) (nth (i - s) l d)) (seq s (length l)).
Proof.
  revert s. induction l as [|y l IH]; intros s; [reflexivity|].
  cbn [length seq map zip_with]. rewrite Nat.sub_diag. cbn [nth]. f_equal.
  rewrite IH. apply map_ext_in. intros i Hi. apply in_seq in Hi.
  replace (i - s)%nat with (S (i - S s)) by lia. reflexivity.
Qed.

Lemma FFT_factor_nth (c : R) (kz : list R) (tk : R) (i : nat) :
  (i < length kz)%nat ->
  nth i (FFT_factor c kz tk) Cone = expi (nth i kz 0 * c * tk).
Proof.
  intros H. rewrite FFT_factor_expi.
  rewrite (nth_indep _ Cone (expi (0 * c * tk))) by (now rewrite length_map).
  apply (map_nth (fun k => expi (k * c * tk))).
Qed.

Lemma get_E_r_ok (c t : R) (u : ndarray2 C) (kz : list R) :
  length kz = shape0 u ->
  get_E_r c t u kz
  = Ok (map (fun ir => synth c (column2 u ir) kz t
                       / INR (shape0 u * shape1 u))
          (seq 0 (shape1 u))).
Proof.
  intros Hkz. unfold get_E_r, mul_1_2, mul_2_2.
  cbn [transpose ones_like shape0 shape1 item2].
  rewrite FFT_factor_length, Hkz, bdim_same. cbn [bind shape0 shape1 item2].
  rewrite !bdim_same. cbn [bind]. f_equal.
  unfold sum0, real2, size2. cbn [shape0 shape1 item2].
  rewrite map_map. apply map_ext_in. intros ir Hir. apply in_seq in Hir.
  f_equal. unfold synth, column2.
  rewrite <- Hkz. rewrite (zip_with_seq _ _ kz 0). f_equal.
  apply map_ext_in. intros i Hi. apply in_seq in Hi.
  rewrite !bidx_lt by lia. rewrite FFT_factor_nth by lia.
  rewrite Nat.sub_0_r. unfold Cmul, Cone, Re, Im. cbn [fst snd]. ring.
Qed.

(** C1, as the code has it: with one wavenumber per mode, the single-time
    evaluator returns, for every radial index, the sum over the [Nkz]
    frequency modes of [Re(u * exp(i*kz*c*t))] divided by [FFT_factor.size],
    the number [Nkz * Nr] of cells of [u]; that is the radial-resolved
    kernel's row for the same instant divided by [Nkz * Nr]. *)
Theorem get_E_r_normalization (c t : R) (u : ndarray2 C) (kz : list R)
  (u_t : ndarray2 R) :
  length kz = shape0 u ->
  shape1 u_t = shape1 u -> shape0 u_t = 1%nat ->
  exists u_r row,
    get_E_r c t u kz = Ok u_r /\
    get_temporal_radial c u u_t [t] kz = Ok row /\
    length u_r = shape1 u /\
    forall ir, (ir < shape1 u)%nat ->
      nth ir u_r 0
      = Rsum (zip_with (fun z k => Re (Cmul z (expi (k * c * t))))
                (map (fun ikz => item2 u ikz ir) (seq 0 (shape0 u))) kz)
        / INR (shape0 u * shape1 u) /\
      nth ir u_r 0 = item2 row 0 ir / INR (shape0 u * shape1 u).
Proof.
  intros Hkz H1 H0.
  destruct (get_temporal_radial_ok c u u_t [t] kz Hkz H1 H0)
    as (row & E & _ & _ & Hrow).
  eexists. exists row. split; [now apply get_E_r_ok|]. split; [exact E|].
  split; [now rewrite length_map, length_seq|].
  intros ir Hir.
  rewrite (nth_indep _ 0
             ((fun ir => synth c (column2 u ir) kz t
                         / INR (shape0 u * shape1 u)) 0%nat))
    by (now rewrite length_map, length_seq).
  rewrite (map_nth (fun ir => synth c (column2 u ir) kz t
                              / INR (shape0 u * shape1 u))).
  rewrite seq_nth by assumption. cbn [Nat.add].
  split; [reflexivity|].
  rewrite Hrow. apply Nat.ltb_lt in Hir. rewrite Hir. reflexivity.
Qed.

Lemma get_E_r_normalization_witness :
  exists u_r row,
    get_E_r 1 0 (ones 1 2) [0] = Ok u_r /\
    get_temporal_radial 1 (ones 1 2) (zeros 1 2) [0] [0] = Ok row /\
    length u_r = 2%nat /\
    forall ir, (ir < 2)%nat ->
      nth ir u_r 0
      = Rsum (zip_with (fun z k => Re (Cmul z (expi (k * 1 * 0))))
                (map (fun ikz => item2 (ones 1 2) ikz ir) (seq 0 1)) [0])
        / INR (1 * 2) /\
      nth ir u_r 0 = item2 row 0 ir / INR (1 * 2).
Proof.
  apply (get_E_r_normalization 1 0 (ones 1 2) [0] (zeros 1 2)); reflexivity.
Defined.

(** C1, as the spec states it, fails: on the [1 x 2] array of ones with
    [kz = [0]] the mean over the single mode is [1] at both radial points,
    but the evaluator returns [1/2]. *)
Lemma get_E_r_not_mode_mean :
  get_E_r 1 0 (ones 1 2) [0] = Ok [1 / 2; 1 / 2] /\
  mode_mean 1 0 (ones 1 2) [0] = [1; 1] /\
  get_E_r 1 0 (ones 1 2) [0] <> Ok (mode_mean 1 0 (ones 1 2) [0]).
Proof.
  assert (E : get_E_r 1 0 (ones 1 2) [0] = Ok [1 / 2; 1 / 2]).
  { rewrite get_E_r_ok by reflexivity. cbn [ones shape0 shape1 seq map].
    rewrite !synth_at_0 by reflexivity.
    unfold column2, ones, Cone, Rsum, Re. simpl.
    do 2 f_equal; [|f_equal]; lra. }
  assert (M : mode_mean 1 0 (ones 1 2) [0] = [1; 1]).
  { unfold mode_mean. cbn [ones shape0 shape1 seq map].
    rewrite !synth_at_0 by reflexivity.
    unfold column2, ones, Cone, Rsum, Re. simpl.
    f_equal; [|f_equal]; lra. }
  repeat split; auto.
  rewrite E, M. intros H. injection H as H _. lra.
Qed.

(** ** Energy normalization of the amplitude generator *)

Lemma Cabs_sq (z : C) : Cabs z ^ 2 = Re z * Re z + Im z * Im z.
Proof. unfold Cabs. apply pow2_sqrt. nra. Qed.

Lemma Cabs_sq_div (z : C) (m : R) :
  0 < m -> Cabs (Cdivr z (sqrt m)) ^ 2 = Cabs z ^ 2 / m.
Proof.
  intros Hm. rewrite !Cabs_sq. unfold Cdivr, Re, Im. cbn [fst snd].
  assert (Hs : sqrt m * sqrt m = m) by (apply sqrt_sqrt; lra).
  assert (Hn : sqrt m <> 0) by (intros E; rewrite E in Hs; lra).
  rewrite <- Hs at 5. field. exact Hn.
Qed.

Lemma Rsum_div (m : R) (f : nat -> R) (l : list nat) :
  Rsum (map (fun i => f i / m) l) = Rsum (map f l) / m.
Proof.
  induction l as [|x l IH]; cbn [map]; [unfold Rsum; simpl; lra|].
  rewrite !Rsum_cons, IH. lra.
Qed.

Lemma Rmax_div (a b m : R) : 0 < m -> Rmax (a / m) (b / m) = Rmax a b / m.
Proof.
  intros Hm. assert (0 < / m) by now apply Rinv_0_lt_compat.
  unfold Rmax, Rdiv.
  destruct (Rle_dec (a * / m) (b * / m)), (Rle_dec a b);
    try reflexivity; nra.
Qed.

Lemma fold_Rmax_div (l : list R) (x m : R) :
  0 < m ->
  fold_left Rmax (map (fun y => y / m) l) (x / m) = fold_left Rmax l x / m.
Proof.
  intros Hm. revert x. induction l as [|y l IH]; intros x; simpl; auto.
  now rewrite Rmax_div, IH.
Qed.

Lemma amax_div (l : list R) (v m : R) :
  0 < m -> amax l = Ok v -> amax (map (fun y => y / m) l) = Ok (v / m).
Proof.
  intros Hm. destruct l as [|x l]; simpl; [discriminate|].
  intros [= <-]. now rewrite fold_Rmax_div.
Qed.

Lemma sum0_abs_sq_div (a : ndarray2 C) (m : R) :
  0 < m ->
  sum0 (abs_sq (div2 a (sqrt m))) = map (fun y => y / m) (sum0 (abs_sq a)).
Proof.
  intros Hm. unfold sum0, abs_sq, div2. cbn [shape0 shape1 item2].
  rewrite map_map. apply map_ext. intros j.
  rewrite <- (Rsum_div m (fun i => Cabs (item2 a i j) ^ 2)). f_equal.
  apply map_ext. intros i. now apply Cabs_sq_div.
Qed.

(** C2, as the code has it: when the energy of the raw grid, the largest
    over the spatial axis of the sums of [|a0|^2] over the frequency axis,
    is positive, [laser_from_fu(fu, kz, r, normalize=True)] returns the raw
    grid divided by the square root of that energy, and the same measure of
    the result is one: the sum runs over the frequency axis and the maximum
    over the spatial axis. *)
Theorem laser_from_fu_normalized (fu : R -> R -> C) (kz r : list R)
  (raw : ndarray2 C) (m : R) :
  laser_from_fu fu kz r false = Ok raw ->
  amax (sum0 (abs_sq raw)) = Ok m -> 0 < m ->
  exists a0,
    laser_from_fu fu kz r true = Ok a0 /\
    shape0 a0 = length kz /\ shape1 a0 = length r /\
    (forall i j, item2 a0 i j = Cdivr (item2 raw i j) (sqrt m)) /\
    amax (sum0 (abs_sq a0)) = Ok 1.
Proof.
  unfold laser_from_fu. intros [= <-] Hmax Hm. rewrite Hmax. cbn [bind].
  eexists. split; [reflexivity|]. repeat split.
  rewrite sum0_abs_sq_div by assumption.
  rewrite (amax_div _ m m Hm Hmax). f_equal. field. lra.
Qed.

Lemma laser_from_fu_normalized_witness :
  exists a0,
    laser_from_fu (fun _ _ => (2, 0)) [0] [0] true = Ok a0 /\
    shape0 a0 = 1%nat /\ shape1 a0 = 1%nat /\
    (forall i j, item2 a0 i j = Cdivr (2, 0) (sqrt 4)) /\
    amax (sum0 (abs_sq a0)) = Ok 1.
Proof.
  apply (laser_from_fu_normalized (fun _ _ => (2, 0)) [0] [0]
           (mk2 1 1 (fun _ _ => (2, 0))) 4).
  - reflexivity.
  - unfold amax, sum0, abs_sq. cbn [shape0 shape1 item2 seq map fold_left].
    rewrite Cabs_sq. unfold Rsum, Re, Im. simpl. f_equal. lra.
  - lra.
Defined.

(** C2, as the spec states it, fails: for the constant function one on one
    frequency and two radial points nothing is rescaled, and the largest
    over the frequency axis of the sums over the spatial axis is two. *)
Lemma laser_from_fu_energy_axes :
  exists a0,
    laser_from_fu (fun _ _ => Cone) [0] [0; 1] true = Ok a0 /\
    amax (sum1 (abs_sq a0)) = Ok 2 /\
    amax (sum1 (abs_sq a0)) <> Ok 1.
Proof.
  assert (E : amax (sum0 (abs_sq (mk2 1 2 (fun _ _ => Cone)))) = Ok 1).
  { unfold amax, sum0, abs_sq. cbn [shape0 shape1 item2 seq map fold_left].
    rewrite Cabs_sq. unfold Rsum, Cone, Re, Im. simpl.
    f_equal. unfold Rmax. destruct (Rle_dec _ _); lra. }
  unfold laser_from_fu. cbn [length]. rewrite E. cbn [bind].
  eexists. split; [reflexivity|].
  assert (V : amax (sum1 (abs_sq (div2 (mk2 1 2 (fun _ _ => Cone)) (sqrt 1))))
              = Ok 2).
  { unfold amax, sum1, abs_sq, div2.
    cbn [shape0 shape1 item2 seq map fold_left].
    rewrite Cabs_sq. unfold Cdivr, Cone, Rsum, Re, Im. simpl.
    rewrite sqrt_1. f_equal. lra. }
  split; [exact V|]. rewrite V. intros [= H]. lra.
Qed.

(** ** The FBPIC laser profile *)

Section ProfileFacts.

Variables (c : R) (cubic_spline : list R -> list R -> result (R -> R)).

Lemma x_max_upper (x : list R) (v : R) : In v x -> v <= x_max x.
Proof.
  unfold x_max. generalize (hd 0 x) as d.
  induction x as [|w x IH]; intros d [].
  - subst. simpl. apply Rmax_l.
  - simpl. eapply Rle_trans; [now apply IH | apply Rmax_r].
Qed.

Lemma x_min_lower (x : list R) (v : R) : In v x -> x_min x <= v.
Proof.
  unfold x_min. generalize (hd 0 x) as d.
  induction x as [|w x IH]; intros d [].
  - subst. simpl. apply Rmin_l.
  - simpl. eapply Rle_trans; [apply Rmin_r | now apply IH].
Qed.

(** C7: whenever the profile can be evaluated at all (the single-time
    evaluator and the spline fit both succeed), a query point whose radius
    [sqrt(x^2 + y^2)] is strictly above the largest or strictly below the
    smallest radial grid point gets the field [(0, 0)]. *)
Theorem E_field_out_of_domain (self : AxipropLaser) (x y z t : R)
  (u_r : list R) (f : R -> R) :
  get_E_r c (t + self_time_offset self) (self_u self) (self_kz self)
  = Ok u_r ->
  cubic_spline (self_r self) u_r = Ok f ->
  x_max (self_r self) < sqrt (x * x + y * y) \/
  sqrt (x * x + y * y) < x_min (self_r self) ->
  fst (E_field c cubic_spline self x y z t) = Ok (0, 0).
Proof.
  intros Hu Hf Hout. unfold E_field, interp1d. cbn [fst].
  rewrite Hu. cbn [bind]. rewrite Hf. cbn [bind].
  destruct (Rlt_dec (sqrt (x * x + y * y)) (x_min (self_r self)));
    [now rewrite !Rmult_0_r|].
  destruct (Rlt_dec (x_max (self_r self)) (sqrt (x * x + y * y)));
    [now rewrite !Rmult_0_r|].
  destruct Hout; contradiction.
Qed.

End ProfileFacts.

Lemma E_field_out_of_domain_witness :
  fst (E_field 1 (fun _ _ => Ok (fun _ => 1)) sample_laser 3 4 0 0)
  = Ok (0, 0).
Proof.
  apply (E_field_out_of_domain 1 (fun _ _ => Ok (fun _ => 1)) sample_laser
           3 4 0 0 [1 / 2; 1 / 2] (fun _ => 1)).
  - change (get_E_r 1 (0 + 0) (ones 1 2) [0] = Ok [1 / 2; 1 / 2]).
    rewrite get_E_r_ok by reflexivity. cbn [ones shape0 shape1 seq map].
    replace (0 + 0) with 0 by ring. rewrite !synth_at_0 by reflexivity.
    unfold column2, ones, Cone, Rsum, Re. simpl.
    do 2 f_equal; [|f_equal]; lra.
  - reflexivity.
  - left. change (x_max [0; 1] < sqrt (3 * 3 + 4 * 4)).
    replace (3 * 3 + 4 * 4) with (5 * 5) by ring.
    rewrite sqrt_square by lra.
    unfold x_max. simpl. unfold Rmax.
    repeat destruct (Rle_dec _ _); lra.
Defined.

(** ** WarpX binary layout *)

Lemma byte_of_N_to_N (n : N) : (n < 256)%N -> Byte.to_N (byte_of_N n) = n.
Proof.
  intros H. unfold byte_of_N. destruct (Byte.of_N n) as [b|] eqn:E.
  - now apply Byte.to_of_N.
  - apply Byte.of_N_None_iff in E. lia.
Qed.

Lemma to_bytes_le_length (k : nat) (n : N) : length (to_bytes_le k n) = k.
Proof. revert n. induction k as [|k IH]; intros n; simpl; auto. Qed.

Lemma from_to_bytes_le (k : nat) (n : N) :
  from_bytes_le (to_bytes_le k n) = (n mod 256 ^ N.of_nat k)%N.
Proof.
  revert n. induction k as [|k IH]; intros n.
  - simpl. now rewrite N.mod_1_r.
  - cbn [to_bytes_le from_bytes_le]. rewrite IH.
    rewrite byte_of_N_to_N by (apply N.mod_lt; lia).
    rewrite Nat2N.inj_succ, N.pow_succ_r'.
    now rewrite N.Div0.mod_mul_r.
Qed.

Lemma to_bytes_ok (n : N) (k : nat) :
  (n < 256 ^ N.of_nat k)%N ->
  to_bytes n k = Ok (to_bytes_le k n) /\
  from_bytes_le (to_bytes_le k n) = n.
Proof.
  intros H. unfold to_bytes.
  apply N.ltb_lt in H as E. rewrite E. split; [reflexivity|].
  rewrite from_to_bytes_le. now apply N.mod_small.
Qed.

Section WriterFacts.

Variables (elt : Type) (elt_tobytes : elt -> list byte).

Lemma item1_first (a : list elt) (d : elt) :
  a <> [] -> item1 elt a 0 = Ok (hd d a).
Proof.
  destruct a as [|v a]; [congruence|]. intros _. reflexivity.
Qed.

Lemma nth_error_last (a : list elt) (d : elt) :
  a <> [] -> nth_error a (length a - 1) = Some (last a d).
Proof.
  induction a as [|v a IH]; [congruence|]. intros _.
  destruct a as [|w a]; [reflexivity|].
  cbn [length Nat.sub] in *. rewrite Nat.sub_0_r in *.
  change (nth_error (w :: a) (length a) = Some (last (w :: a) d)).
  apply IH. discriminate.
Qed.

Lemma item1_last (a : list elt) (d : elt) :
  a <> [] -> item1 elt a (-1) = Ok (last a d).
Proof.
  intros H. unfold item1, py_index.
  assert (0 < length a)%nat by (destruct a; [congruence | simpl; lia]).
  replace ((0 <=? -1) && (-1 <? Z.of_nat (length a)))%Z with false
    by reflexivity.
  replace ((- Z.of_nat (length a) <=? -1) && (-1 <? 0))%Z with true
    by (symmetry; apply andb_true_iff; split;
        [apply Z.leb_le; lia | reflexivity]).
  cbn [bind].
  replace (Z.to_nat (Z.of_nat (length a) + -1)) with (length a - 1)%nat by lia.
  now rewrite (nth_error_last a d H).
Qed.

Lemma header_layout (flag : byte) (nt nx ny : N) (body : list byte) :
  (nt < 2 ^ 32)%N -> (nx < 2 ^ 32)%N -> (ny < 2 ^ 32)%N ->
  let f := header flag nt nx ny ++ body in
  nth_error f 0 = Some flag /\
  from_bytes_le (slice f 1 5) = nt /\
  from_bytes_le (slice f 5 9) = nx /\
  from_bytes_le (slice f 9 13) = ny /\
  skipn 13 f = body.
Proof.
  intros Ht Hx Hy f. subst f. unfold header, slice.
  pose proof (to_bytes_le_length 4 nt) as Lt.
  pose proof (to_bytes_le_length 4 nx) as Lx.
  pose proof (to_bytes_le_length 4 ny) as Ly.
  pose proof (proj2 (to_bytes_ok nt 4 Ht)) as Dt.
  pose proof (proj2 (to_bytes_ok nx 4 Hx)) as Dx.
  pose proof (proj2 (to_bytes_ok ny 4 Hy)) as Dy.
  revert Lt Lx Ly Dt Dx Dy.
  generalize (to_bytes_le 4 nt) as bt, (to_bytes_le 4 nx) as bx,
    (to_bytes_le 4 ny) as bz.
  intros bt bx bz Lt Lx Ly Dt Dx Dy.
  destruct bt as [|t0 [|t1 [|t2 [|t3 [|]]]]]; try discriminate Lt.
  destruct bx as [|x0 [|x1 [|x2 [|x3 [|]]]]]; try discriminate Lx.
  destruct bz as [|z0 [|z1 [|z2 [|z3 [|]]]]]; try discriminate Ly.
  repeat split; assumption.
Qed.

End WriterFacts.

(** C8: with every count below [2^32], the uniform-mesh writer on non-empty
    axes emits the flag byte [1], the counts [len(t)], [len(x)], [len(y)] as
    little-endian unsigned 32-bit integers in bytes 1-4, 5-8 and 9-12, then
    the first and last value of [t] and of [x], then [y[0]] alone when
    [len(y) == 1] and [y[0]], [y[-1]] otherwise, then the whole field; the
    non-uniform writer emits the flag byte [0], the same three counts, then
    [t], [x], [y] and the field in full. *)
Theorem write_file_layout (elt : Type) (elt_tobytes : elt -> list byte)
  (d : elt) (x y t E : list elt) :
  (len elt t < 2 ^ 32)%N -> (len elt x < 2 ^ 32)%N ->
  (len elt y < 2 ^ 32)%N ->
  (t <> [] -> x <> [] -> y <> [] ->
   exists f,
     write_file_unf elt elt_tobytes x y t E = Ok f /\
     f = header x01 (len elt t) (len elt x) (len elt y)
         ++ elt_tobytes (hd d t) ++ elt_tobytes (last t d)
         ++ elt_tobytes (hd d x) ++ elt_tobytes (last x d)
         ++ (if (len elt y =? 1)%N then elt_tobytes (hd d y)
             else elt_tobytes (hd d y) ++ elt_tobytes (last y d))
         ++ tobytes elt elt_tobytes E /\
     nth_error f 0 = Some x01 /\
     from_bytes_le (slice f 1 5) = len elt t /\
     from_bytes_le (slice f 5 9) = len elt x /\
     from_bytes_le (slice f 9 13) = len elt y) /\
  (exists f,
     write_file elt elt_tobytes x y t E = Ok f /\
     f = header x00 (len elt t) (len elt x) (len elt y)
         ++ tobytes elt elt_tobytes t ++ tobytes elt elt_tobytes x
         ++ tobytes elt elt_tobytes y ++ tobytes elt elt_tobytes E /\
     nth_error f 0 = Some x00 /\
     from_bytes_le (slice f 1 5) = len elt t /\
     from_bytes_le (slice f 5 9) = len elt x /\
     from_bytes_le (slice f 9 13) = len elt y).
Proof.
  intros Ht Hx Hy.
  pose proof (proj1 (to_bytes_ok _ 4 Ht)) as Bt.
  pose proof (proj1 (to_bytes_ok _ 4 Hx)) as Bx.
  pose proof (proj1 (to_bytes_ok _ 4 Hy)) as By.
  split.
  - intros Nt Nx Ny. eexists. split.
    + unfold write_file_unf.
      change (to_bytes 1 1) with (Ok [x01]). cbn [bind].
      rewrite Bt, Bx, By. cbn [bind].
      rewrite (item1_first elt t d Nt), (item1_last elt t d Nt).
      rewrite (item1_first elt x d Nx), (item1_last elt x d Nx).
      rewrite (item1_first elt y d Ny), (item1_last elt y d Ny).
      cbn [bind].
      instantiate (1 := header x01 (len elt t) (len elt x) (len elt y)
         ++ elt_tobytes (hd d t) ++ elt_tobytes (last t d)
         ++ elt_tobytes (hd d x) ++ elt_tobytes (last x d)
         ++ (if (len elt y =? 1)%N then elt_tobytes (hd d y)
             else elt_tobytes (hd d y) ++ elt_tobytes (last y d))
         ++ tobytes elt elt_tobytes E).
      unfold header.
      destruct (len elt y =? 1)%N; cbn [bind]; f_equal;
        rewrite <- ?app_assoc; reflexivity.
    + split; [reflexivity|].
      match goal with
      | |- nth_error (header ?fl ?a ?b ?n ++ ?body) 0 = _ /\ _ =>
          destruct (header_layout fl a b n body Ht Hx Hy)
            as (L0 & L1 & L2 & L3 & _); auto
      end.
  - eexists. split.
    + unfold write_file.
      change (to_bytes 0 1) with (Ok [x00]). cbn [bind].
      rewrite Bt, Bx, By. cbn [bind].
      instantiate (1 := header x00 (len elt t) (len elt x) (len elt y)
         ++ tobytes elt elt_tobytes t ++ tobytes elt elt_tobytes x
         ++ tobytes elt elt_tobytes y ++ tobytes elt elt_tobytes E).
      unfold header. f_equal. rewrite <- ?app_assoc. reflexivity.
    + split; [reflexivity|].
      match goal with
      | |- nth_error (header ?fl ?a ?b ?n ++ ?body) 0 = _ /\ _ =>
          destruct (header_layout fl a b n body Ht Hx Hy)
            as (L0 & L1 & L2 & L3 & _); auto
      end.
Qed.

Lemma write_file_layout_witness :
  write_file_unf byte (fun b => [b]) [x0a] [x0b] [x01; x02] [xff]
  = Ok [x01; x02; x00; x00; x00; x01; x00; x00; x00; x01; x00; x00; x00;
        x01; x02; x0a; x0a; x0b; xff] /\
  write_file byte (fun b => [b]) [x0a] [x0b] [x01; x02] [xff]
  = Ok [x00; x02; x00; x00; x00; x01; x00; x00; x00; x01; x00; x00; x00;
        x01; x02; x0a; x0b; xff].
Proof.
  destruct (write_file_layout byte (fun b => [b]) x00
              [x0a] [x0b] [x01; x02] [xff])
    as (U & (g & Eg & Fg & _)); try reflexivity.
  destruct U as (f & Ef & Ff & _); try discriminate.
  split.
  - rewrite Ef, Ff. reflexivity.
  - rewrite Eg, Fg. reflexivity.
Defined.

(** ** Shape checks of the kernels *)

Lemma bind_not_raise {A B : Type} (m : result A) (k : A -> result B)
  (e : exn) :
  m <> Raise e -> (forall a, k a <> Raise e) -> bind m k <> Raise e.
Proof.
  destruct m as [a|e']; intros Hm Hk; cbn [bind]; [apply Hk|].
  intros [= ->]. now apply Hm.
Qed.

Lemma for_range_not_raise {S : Type} (n : nat)
  (body : nat -> S -> result S) (s : S) (e : exn) :
  (forall i s0, body i s0 <> Raise e) -> for_range n body s <> Raise e.
Proof.
  intros H. induction n as [|n IH]; [discriminate|].
  rewrite for_range_S. apply bind_not_raise; auto.
Qed.

Lemma col2_no_assert {A : Type} (u : ndarray2 A) (ir : nat) :
  col2 u ir <> Raise AssertionError.
Proof. unfold col2. destruct (ir <? shape1 u)%nat; discriminate. Qed.

Lemma col3_no_assert {A : Type} (u : ndarray3 A) (ix : nat) (iy : Z) :
  col3 u ix iy <> Raise AssertionError.
Proof.
  unfold col3, py_index. destruct (ix <? dim1 u)%nat; [|discriminate].
  repeat match goal with |- context [if ?b then _ else _] => destruct b end;
    discriminate.
Qed.

Lemma mode_sum_no_assert (col factor : list C) :
  mode_sum col factor <> Raise AssertionError.
Proof.
  unfold mode_sum, broadcast_mul.
  repeat match goal with |- context [if ?b then _ else _] => destruct b end;
    discriminate.
Qed.

Lemma set2_no_assert {A : Type} (a : ndarray2 A) (i j : nat) (v : A) :
  set2 a i j v <> Raise AssertionError.
Proof. unfold set2. destruct (_ && _)%bool; discriminate. Qed.

Lemma set3_no_assert {A : Type} (a : ndarray3 A) (i j l : nat) (v : A) :
  set3 a i j l v <> Raise AssertionError.
Proof. unfold set3. destruct (_ && _)%bool; discriminate. Qed.

Create HintDb no_assert.

#[local] Hint Resolve col2_no_assert col3_no_assert mode_sum_no_assert
  set2_no_assert set3_no_assert : no_assert.

Ltac no_assert :=
  repeat first
    [ apply for_range_not_raise; intros
    | apply bind_not_raise; [solve [auto with no_assert]|]; intros
    | solve [auto with no_assert] ].

Section ShapeChecks.

Variable c : R.

Lemma get_temporal_radial_asserts (u : ndarray2 C) (u_t : ndarray2 R)
  (t kz : list R) :
  shape1 u_t <> shape1 u \/ shape0 u_t <> length t ->
  get_temporal_radial c u u_t t kz = Raise AssertionError.
Proof.
  intros H. unfold get_temporal_radial. cbv zeta.
  destruct (Nat.eqb_spec (shape1 u_t) (shape1 u)); [|reflexivity].
  destruct (Nat.eqb_spec (shape0 u_t) (length t)); [|reflexivity].
  destruct H; contradiction.
Qed.

Lemma get_temporal_slice2d_asserts (u : ndarray3 C) (u_t : ndarray2 R)
  (t kz : list R) :
  shape1 u_t <> dim1 u ->
  get_temporal_slice2d c u u_t t kz = Raise AssertionError.
Proof.
  intros H. unfold get_temporal_slice2d. cbv zeta.
  destruct (Nat.eqb_spec (shape1 u_t) (dim1 u)); [contradiction|reflexivity].
Qed.

Lemma get_temporal_radial_no_assert (u : ndarray2 C) (u_t : ndarray2 R)
  (t kz : list R) :
  shape1 u_t = shape1 u -> shape0 u_t = length t ->
  get_temporal_radial c u u_t t kz <> Raise AssertionError.
Proof.
  intros H1 H0. unfold get_temporal_radial. cbv zeta.
  apply Nat.eqb_eq in H1 as E1. apply Nat.eqb_eq in H0 as E0.
  rewrite E1, E0. cbn [py_assert bind]. no_assert.
Qed.

Lemma get_temporal_slice2d_no_assert (u : ndarray3 C) (u_t : ndarray2 R)
  (t kz : list R) :
  shape1 u_t = dim1 u ->
  get_temporal_slice2d c u u_t t kz <> Raise AssertionError.
Proof.
  intros H1. unfold get_temporal_slice2d. cbv zeta.
  apply Nat.eqb_eq in H1 as E1. rewrite E1. cbn [py_assert bind]. no_assert.
Qed.

Lemma get_temporal_3d_no_assert (garbage : nat -> nat -> nat -> R)
  (u : ndarray3 C) (t kz : list R) :
  get_temporal_3d c garbage u t kz <> Raise AssertionError.
Proof. unfold get_temporal_3d. cbv zeta. no_assert. Qed.

End ShapeChecks.

(** C4, as the code has it: the radial-resolved kernel fails with an
    assertion when the trailing axis of [u_t] differs from [Nr] or its
    leading axis from [len(t)], and the transverse-slice kernel when the
    trailing axis of [u_t] differs from [Nx]; with those axes right no
    assertion fires in these kernels, whatever the length of [kz], and the
    full-volume kernel has no assertion at all: no assertion compares the
    length of [kz] with the leading axis of [u].  On inputs that also have
    one wavenumber per frequency mode the three kernels return their
    result. *)
Theorem kernel_shape_checks (c : R) :
  (forall (u : ndarray2 C) (u_t : ndarray2 R) (t kz : list R),
     shape1 u_t <> shape1 u \/ shape0 u_t <> length t ->
     get_temporal_radial c u u_t t kz = Raise AssertionError) /\
  (forall (u : ndarray3 C) (u_t : ndarray2 R) (t kz : list R),
     shape1 u_t <> dim1 u ->
     get_temporal_slice2d c u u_t t kz = Raise AssertionError) /\
  (forall (u : ndarray2 C) (u_t : ndarray2 R) (t kz : list R),
     shape1 u_t = shape1 u -> shape0 u_t = length t ->
     get_temporal_radial c u u_t t kz <> Raise AssertionError) /\
  (forall (u : ndarray3 C) (u_t : ndarray2 R) (t kz : list R),
     shape1 u_t = dim1 u ->
     get_temporal_slice2d c u u_t t kz <> Raise AssertionError) /\
  (forall (garbage : nat -> nat -> nat -> R) (u : ndarray3 C)
     (t kz : list R),
     get_temporal_3d c garbage u t kz <> Raise AssertionError) /\
  (forall (u : ndarray2 C) (u_t : ndarray2 R) (t kz : list R),
     shape1 u_t = shape1 u -> shape0 u_t = length t ->
     length kz = shape0 u ->
     exists out, get_temporal_radial c u u_t t kz = Ok out) /\
  (forall (u : ndarray3 C) (u_t : ndarray2 R) (t kz : list R),
     shape1 u_t = dim1 u -> (length t <= shape0 u_t)%nat ->
     (1 <= dim2 u)%nat -> length kz = dim0 u ->
     exists out, get_temporal_slice2d c u u_t t kz = Ok out) /\
  (forall (garbage : nat -> nat -> nat -> R) (u : ndarray3 C)
     (t kz : list R),
     length kz = dim0 u ->
     exists out, get_temporal_3d c garbage u t kz = Ok out).
Proof.
  split; [apply get_temporal_radial_asserts|].
  split; [apply get_temporal_slice2d_asserts|].
  split; [apply get_temporal_radial_no_assert|].
  split; [apply get_temporal_slice2d_no_assert|].
  split; [apply get_temporal_3d_no_assert|].
  split; [|split].
  - intros u u_t t kz H1 H0 Hk.
    destruct (get_temporal_radial_ok c u u_t t kz Hk H1 H0) as (out & E & _).
    now exists out.
  - intros u u_t t kz H1 H0 Hy Hk.
    destruct (get_temporal_slice2d_ok c u u_t t kz Hk H1 H0 Hy)
      as (out & E & _).
    now exists out.
  - intros g u t kz Hk.
    destruct (get_temporal_3d_ok c g u t kz Hk) as (out & E & _).
    now exists out.
Qed.

Lemma kernel_shape_checks_witness :
  get_temporal_radial 1 (ones 3 1) (zeros 2 1) [0] [0; PI; 2 * PI]
  = Raise AssertionError /\
  get_temporal_slice2d 1 (ones3 1 1 2) (zeros 1 4) [0] [0]
  = Raise AssertionError /\
  get_temporal_radial 1 (ones 3 1) (zeros 1 1) [0] [0]
  <> Raise AssertionError /\
  get_temporal_slice2d 1 (ones3 1 1 2) (zeros 1 1) [0] [0; PI]
  <> Raise AssertionError /\
  (exists out,
     get_temporal_radial 1 (ones 3 1) (zeros 1 1) [0] [0; PI; 2 * PI]
     = Ok out) /\
  (exists out,
     get_temporal_slice2d 1 (ones3 1 1 2) (zeros 1 1) [0] [0] = Ok out) /\
  (exists out,
     get_temporal_3d 1 (fun _ _ _ => 0) (ones3 1 1 2) [0] [0] = Ok out).
Proof.
  destruct (kernel_shape_checks 1) as (A1 & A2 & N1 & N2 & _ & S1 & S2 & S3).
  split; [|split; [|split; [|split; [|split; [|split]]]]].
  - apply A1. right. simpl. lia.
  - apply A2. simpl. lia.
  - apply N1; reflexivity.
  - apply N2; reflexivity.
  - apply S1; reflexivity.
  - apply S2; simpl; lia.
  - apply S3; reflexivity.
Defined.

(** C4, as the spec states it, fails: a [kz] of one wavenumber against three
    frequency modes passes both assertions of the radial-resolved kernel, so
    that call does not fail by an assertion; and the accumulate kernel's
    assertion fires on a [u_t] with one slot per requested time when [Nr]
    differs from [len(t)], although every axis length is as it should
    be. *)
Lemma kernel_shape_checks_gaps :
  length [0] <> shape0 (ones 3 1) /\
  get_temporal_radial 1 (ones 3 1) (zeros 1 1) [0] [0]
  <> Raise AssertionError /\
  length [0] = shape0 (ones 1 2) /\
  get_temporal_1d 1 (ones 1 2) [0] [0] [0] 2 = Raise AssertionError.
Proof.
  split; [simpl; lia|]. split; [|split; reflexivity].
  apply get_temporal_radial_no_assert; reflexivity.
Qed.

(** ** Further properties of the kernels *)

Lemma synth_index (c : R) (u : ndarray2 C) (ir : nat) (kz : list R) (tk : R) :
  length kz = shape0 u ->
  synth c (column2 u ir) kz tk
  = Rsum (map (fun i => Re (Cmul (item2 u i ir) (expi (nth i kz 0 * c * tk))))
            (seq 0 (shape0 u))).
Proof.
  intros H. unfold synth, column2. rewrite <- H.
  rewrite (zip_with_seq _ _ kz 0). f_equal. apply map_ext. intros i.
  now rewrite Nat.sub_0_r.
Qed.

Lemma synth_index3 (c : R) (u : ndarray3 C) (ix iy : nat) (kz : list R)
  (tk : R) :
  length kz = dim0 u ->
  synth c (column3 u ix iy) kz tk
  = Rsum (map (fun i => Re (Cmul (item3 u i ix iy)
                              (expi (nth i kz 0 * c * tk))))
            (seq 0 (dim0 u))).
Proof.
  intros H. unfold synth, column3. rewrite <- H.
  rewrite (zip_with_seq _ _ kz 0). f_equal. apply map_ext. intros i.
  now rewrite Nat.sub_0_r.
Qed.

Lemma Rsum_add (f g : nat -> R) (l : list nat) :
  Rsum (map (fun i => f i + g i) l) = Rsum (map f l) + Rsum (map g l).
Proof.
  induction l as [|x l IH]; cbn [map]; [unfold Rsum; simpl; lra|].
  rewrite !Rsum_cons, IH. lra.
Qed.

Lemma Re_Cmul_add (a b w : C) :
  Re (Cmul (Cadd a b) w) = Re (Cmul a w) + Re (Cmul b w).
Proof. unfold Cmul, Cadd, Re, Im. cbn [fst snd]. ring. Qed.

Lemma synth_add2 (c : R) (u v : ndarray2 C) (ir : nat) (kz : list R)
  (tk : R) :
  length kz = shape0 u -> shape0 v = shape0 u ->
  synth c (column2 (add2 u v) ir) kz tk
  = synth c (column2 u ir) kz tk + synth c (column2 v ir) kz tk.
Proof.
  intros Hk Hv. rewrite !synth_index by (cbn [add2 shape0]; congruence).
  cbn [add2 shape0 item2]. rewrite Hv, <- Rsum_add. f_equal.
  apply map_ext. intros i. apply Re_Cmul_add.
Qed.

Lemma synth_add3 (c : R) (u v : ndarray3 C) (ix iy : nat) (kz : list R)
  (tk : R) :
  length kz = dim0 u -> dim0 v = dim0 u ->
  synth c (column3 (add3 u v) ix iy) kz tk
  = synth c (column3 u ix iy) kz tk + synth c (column3 v ix iy) kz tk.
Proof.
  intros Hk Hv. rewrite !synth_index3 by (cbn [add3 dim0]; congruence).
  cbn [add3 dim0 item3]. rewrite Hv, <- Rsum_add. f_equal.
  apply map_ext. intros i. apply Re_Cmul_add.
Qed.

Ltac in_range :=
  repeat match goal with
    | H : (?a < ?b)%nat |- context [(?a <? ?b)%nat] =>
        rewrite (proj2 (Nat.ltb_lt a b) H)
    end; cbn [andb].

(** Superposition: the radial-resolved and the full-volume kernel map the
    sum of two fields of the same shape to the sum of their outputs. *)
Theorem synthesis_additive (c : R) :
  (forall (u v : ndarray2 C) (u_t : ndarray2 R) (t kz : list R),
     length kz = shape0 u -> shape0 v = shape0 u -> shape1 v = shape1 u ->
     shape1 u_t = shape1 u -> shape0 u_t = length t ->
     exists ou ov os,
       get_temporal_radial c u u_t t kz = Ok ou /\
       get_temporal_radial c v u_t t kz = Ok ov /\
       get_temporal_radial c (add2 u v) u_t t kz = Ok os /\
       forall it ir, (it < length t)%nat -> (ir < shape1 u)%nat ->
         item2 os it ir = item2 ou it ir + item2 ov it ir) /\
  (forall (g1 g2 g3 : nat -> nat -> nat -> R) (u v : ndarray3 C)
     (t kz : list R),
     length kz = dim0 u ->
     dim0 v = dim0 u -> dim1 v = dim1 u -> dim2 v = dim2 u ->
     exists ou ov os,
       get_temporal_3d c g1 u t kz = Ok ou /\
       get_temporal_3d c g2 v t kz = Ok ov /\
       get_temporal_3d c g3 (add3 u v) t kz = Ok os /\
       forall it ix iy, (it < length t)%nat -> (ix < dim1 u)%nat ->
         (iy < dim2 u)%nat ->
         item3 os it ix iy = item3 ou it ix iy + item3 ov it ix iy).
Proof.
  split.
  - intros u v u_t t kz Hk V0 V1 H1 H0.
    destruct (get_temporal_radial_ok c u u_t t kz)
      as (ou & Eu & _ & _ & Hu); auto.
    destruct (get_temporal_radial_ok c v u_t t kz)
      as (ov & Ev & _ & _ & Hv); try congruence.
    destruct (get_temporal_radial_ok c (add2 u v) u_t t kz)
      as (os & Es & _ & _ & Hs); auto.
    exists ou, ov, os. repeat split; auto.
    intros it ir Hit Hir. rewrite Hu, Hv, Hs. cbn [add2 shape1].
    rewrite V1. in_range. now apply synth_add2.
  - intros g1 g2 g3 u v t kz Hk V0 V1 V2.
    destruct (get_temporal_3d_ok c g1 u t kz)
      as (ou & Eu & _ & _ & _ & Hu); auto.
    destruct (get_temporal_3d_ok c g2 v t kz)
      as (ov & Ev & _ & _ & _ & Hv); try congruence.
    destruct (get_temporal_3d_ok c g3 (add3 u v) t kz)
      as (os & Es & _ & _ & _ & Hs); auto.
    exists ou, ov, os. repeat split; auto.
    intros it ix iy Hit Hix Hiy.
    rewrite Hu, Hs by assumption. rewrite Hv by congruence.
    now apply synth_add3.
Qed.

Lemma synthesis_additive_witness :
  (exists ou ov os,
     get_temporal_radial 1 (ones 1 1) (zeros 1 1) [0] [0] = Ok ou /\
     get_temporal_radial 1 (scale2 2 (ones 1 1)) (zeros 1 1) [0] [0] = Ok ov /\
     get_temporal_radial 1 (add2 (ones 1 1) (scale2 2 (ones 1 1)))
       (zeros 1 1) [0] [0] = Ok os /\
     forall it ir, (it < 1)%nat -> (ir < 1)%nat ->
       item2 os it ir = item2 ou it ir + item2 ov it ir) /\
  (exists ou ov os,
     get_temporal_3d 1 (fun _ _ _ => 0) (ones3 1 1 1) [0] [0] = Ok ou /\
     get_temporal_3d 1 (fun _ _ _ => 1) (scale3 2 (ones3 1 1 1)) [0] [0]
     = Ok ov /\
     get_temporal_3d 1 (fun _ _ _ => 2)
       (add3 (ones3 1 1 1) (scale3 2 (ones3 1 1 1))) [0] [0] = Ok os /\
     forall it ix iy, (it < 1)%nat -> (ix < 1)%nat -> (iy < 1)%nat ->
       item3 os it ix iy = item3 ou it ix iy + item3 ov it ix iy).
Proof.
  destruct (synthesis_additive 1) as (A2 & A3). split.
  - apply (A2 (ones 1 1) (scale2 2 (ones 1 1)) (zeros 1 1) [0] [0]);
      reflexivity.
  - apply (A3 (fun _ _ _ => 0) (fun _ _ _ => 1) (fun _ _ _ => 2)
             (ones3 1 1 1) (scale3 2 (ones3 1 1 1)) [0] [0]); reflexivity.
Defined.

(** The radial-resolved kernel overwrites: what it returns does not depend
    on what [u_t] held before, and running it again on its own output
    changes nothing. *)
Theorem get_temporal_radial_overwrites (c : R) (u : ndarray2 C)
  (u_t u_t' : ndarray2 R) (t kz : list R) :
  length kz = shape0 u ->
  shape1 u_t = shape1 u -> shape0 u_t = length t ->
  shape1 u_t' = shape1 u -> shape0 u_t' = length t ->
  exists out out' again,
    get_temporal_radial c u u_t t kz = Ok out /\
    get_temporal_radial c u u_t' t kz = Ok out' /\
    get_temporal_radial c u out t kz = Ok again /\
    forall it ir, (it < length t)%nat -> (ir < shape1 u)%nat ->
      item2 out it ir = item2 out' it ir /\
      item2 again it ir = item2 out it ir.
Proof.
  intros Hk H1 H0 H1' H0'.
  destruct (get_temporal_radial_ok c u u_t t kz)
    as (out & E & S0 & S1 & Ho); auto.
  destruct (get_temporal_radial_ok c u u_t' t kz)
    as (out' & E' & _ & _ & Ho'); auto.
  destruct (get_temporal_radial_ok c u out t kz)
    as (again & Ea & _ & _ & Ha); try congruence.
  exists out, out', again. repeat split; auto.
  - rewrite Ho, Ho'. now in_range.
  - rewrite Ha, Ho. now in_range.
Qed.

Lemma get_temporal_radial_overwrites_witness :
  exists out out' again,
    get_temporal_radial 1 (ones 2 1) (zeros 1 1) [0] [0; PI] = Ok out /\
    get_temporal_radial 1 (ones 2 1) (mk2 1 1 (fun _ _ => 9)) [0] [0; PI]
    = Ok out' /\
    get_temporal_radial 1 (ones 2 1) out [0] [0; PI] = Ok again /\
    forall it ir, (it < 1)%nat -> (ir < 1)%nat ->
      item2 out it ir = item2 out' it ir /\
      item2 again it ir = item2 out it ir.
Proof.
  apply (get_temporal_radial_overwrites 1 (ones 2 1) (zeros 1 1)
           (mk2 1 1 (fun _ _ => 9)) [0] [0; PI]); reflexivity.
Defined.

(** The accumulate kernel adds: run a second time on its own output, it
    adds to every slot the amount the first run added. *)
Theorem get_temporal_1d_accumulates (c : R) (u : ndarray2 C)
  (u_t t kz : list R) (Nr_loc : nat) :
  length kz = shape0 u -> length u_t = shape1 u ->
  (length t <= length u_t)%nat -> (Nr_loc <= shape1 u)%nat ->
  exists out again,
    get_temporal_1d c u u_t t kz Nr_loc = Ok out /\
    get_temporal_1d c u out t kz Nr_loc = Ok again /\
    length out = length u_t /\ length again = length u_t /\
    forall it, nth it again 0 - nth it out 0 = nth it out 0 - nth it u_t 0.
Proof.
  intros Hk H1 H0 Hloc.
  destruct (get_temporal_1d_ok c u u_t t kz Nr_loc)
    as (out & E & L & Ho); auto.
  destruct (get_temporal_1d_ok c u out t kz Nr_loc)
    as (again & Ea & La & Ha); try congruence; try lia.
  exists out, again. repeat split; auto; try congruence.
  intros it. rewrite Ha, Ho. destruct (it <? length t)%nat; lra.
Qed.

Lemma get_temporal_1d_accumulates_witness :
  exists out again,
    get_temporal_1d 1 (ones 2 1) [5] [0] [0; PI] 1 = Ok out /\
    get_temporal_1d 1 (ones 2 1) out [0] [0; PI] 1 = Ok again /\
    length out = 1%nat /\ length again = 1%nat /\
    forall it, nth it again 0 - nth it out 0 = nth it out 0 - nth it [5] 0.
Proof.
  apply (get_temporal_1d_accumulates 1 (ones 2 1) [5] [0] [0; PI] 1);
    simpl; lia.
Defined.

(** What the accumulate kernel adds into slot [it] is the sum of the first
    [Nr_loc] entries of row [it] of the radial-resolved kernel's output. *)
Theorem get_temporal_1d_sums_radial (c : R) (u : ndarray2 C)
  (u_t t kz : list R) (Nr_loc : nat) (buf : ndarray2 R) :
  length kz = shape0 u -> length u_t = shape1 u ->
  (length t <= length u_t)%nat -> (Nr_loc <= shape1 u)%nat ->
  shape1 buf = shape1 u -> shape0 buf = length t ->
  exists out rad,
    get_temporal_1d c u u_t t kz Nr_loc = Ok out /\
    get_temporal_radial c u buf t kz = Ok rad /\
    forall it, (it < length t)%nat ->
      nth it out 0
      = nth it u_t 0 + Rsum (map (fun ir => item2 rad it ir) (seq 0 Nr_loc)).
Proof.
  intros Hk H1 H0 Hloc B1 B0.
  destruct (get_temporal_1d_ok c u u_t t kz Nr_loc)
    as (out & E & _ & Ho); auto.
  destruct (get_temporal_radial_ok c u buf t kz)
    as (rad & Er & _ & _ & Hr); auto.
  exists out, rad. repeat split; auto.
  intros it Hit. rewrite Ho. in_range. do 2 f_equal.
  apply map_ext_in. intros ir Hir. apply in_seq in Hir.
  rewrite Hr. assert (ir < shape1 u)%nat by lia. now in_range.
Qed.

Lemma get_temporal_1d_sums_radial_witness :
  exists out rad,
    get_temporal_1d 1 (ones 2 1) [5] [0] [0; PI] 1 = Ok out /\
    get_temporal_radial 1 (ones 2 1) (zeros 1 1) [0] [0; PI] = Ok rad /\
    forall it, (it < 1)%nat ->
      nth it out 0
      = nth it [5] 0 + Rsum (map (fun ir => item2 rad it ir) (seq 0 1)).
Proof.
  apply (get_temporal_1d_sums_radial 1 (ones 2 1) [5] [0] [0; PI] 1
           (zeros 1 1)); simpl; lia.
Defined.

(** The transverse-slice kernel returns the line [iy = Ny//2 - 1] of what
    the full-volume kernel returns. *)
Theorem get_temporal_slice2d_of_3d (c : R) (garbage : nat -> nat -> nat -> R)
  (u : ndarray3 C) (u_t : ndarray2 R) (t kz : list R) :
  length kz = dim0 u ->
  shape1 u_t = dim1 u -> (length t <= shape0 u_t)%nat -> (1 <= dim2 u)%nat ->
  exists line volume iy,
    get_temporal_slice2d c u u_t t kz = Ok line /\
    get_temporal_3d c garbage u t kz = Ok volume /\
    py_index (dim2 u) (Z.of_nat (dim2 u) / 2 - 1)%Z = Ok iy /\
    forall it ix, (it < length t)%nat -> (ix < dim1 u)%nat ->
      item2 line it ix = item3 volume it ix iy.
Proof.
  intros Hk H1 H0 Hy.
  destruct (get_temporal_slice2d_ok c u u_t t kz)
    as (line & El & _ & _ & Hl); auto.
  destruct (get_temporal_3d_ok c garbage u t kz)
    as (vol & Ev & _ & _ & _ & Hv); auto.
  exists line, vol, (mid_row (dim2 u)).
  split; [exact El|]. split; [exact Ev|].
  split; [now apply py_index_mid_row|].
  intros it ix Hit Hix. rewrite Hl, Hv; auto using mid_row_lt. now in_range.
Qed.

Lemma get_temporal_slice2d_of_3d_witness :
  exists line volume iy,
    get_temporal_slice2d 1 (ones3 1 1 2) (zeros 1 1) [0] [0] = Ok line /\
    get_temporal_3d 1 (fun _ _ _ => 7) (ones3 1 1 2) [0] [0] = Ok volume /\
    py_index 2 (Z.of_nat 2 / 2 - 1)%Z = Ok iy /\
    forall it ix, (it < 1)%nat -> (ix < 1)%nat ->
      item2 line it ix = item3 volume it ix iy.
Proof.
  apply (get_temporal_slice2d_of_3d 1 (fun _ _ _ => 7) (ones3 1 1 2)
           (zeros 1 1) [0] [0]); simpl; lia.
Defined.

(** The full-volume kernel returns an array of shape [[Nt, Nx, Ny]] none of
    whose cells shows what [np.empty] left in the fresh storage. *)
Theorem get_temporal_3d_initialized (c : R)
  (garbage garbage' : nat -> nat -> nat -> R) (u : ndarray3 C)
  (t kz : list R) :
  length kz = dim0 u ->
  exists out out',
    get_temporal_3d c garbage u t kz = Ok out /\
    get_temporal_3d c garbage' u t kz = Ok out' /\
    dim0 out = length t /\ dim1 out = dim1 u /\ dim2 out = dim2 u /\
    forall it ix iy, (it < dim0 out)%nat -> (ix < dim1 out)%nat ->
      (iy < dim2 out)%nat ->
      item3 out it ix iy = item3 out' it ix iy.
Proof.
  intros Hk.
  destruct (get_temporal_3d_ok c garbage u t kz Hk)
    as (out & E & D0 & D1 & D2 & Ho).
  destruct (get_temporal_3d_ok c garbage' u t kz Hk)
    as (out' & E' & _ & _ & _ & Ho').
  exists out, out'. repeat split; auto.
  intros it ix iy Hit Hix Hiy. rewrite D0 in Hit. rewrite D1 in Hix.
  rewrite D2 in Hiy. now rewrite Ho, Ho'.
Qed.

Lemma get_temporal_3d_initialized_witness :
  exists out out',
    get_temporal_3d 1 (fun _ _ _ => 0) (ones3 1 2 2) [0; 1] [0] = Ok out /\
    get_temporal_3d 1 (fun _ _ _ => 7) (ones3 1 2 2) [0; 1] [0] = Ok out' /\
    dim0 out = 2%nat /\ dim1 out = 2%nat /\ dim2 out = 2%nat /\
    forall it ix iy, (it < dim0 out)%nat -> (ix < dim1 out)%nat ->
      (iy < dim2 out)%nat ->
      item3 out it ix iy = item3 out' it ix iy.
Proof.
  apply (get_temporal_3d_initialized 1 (fun _ _ _ => 0) (fun _ _ _ => 7)
           (ones3 1 2 2) [0; 1] [0]); reflexivity.
Defined.

(** Row [it] of the radial-resolved output depends on the requested times
    only through [t[it]]: it is the row the kernel returns when asked for
    that single instant.  The rows come in the order of [t]. *)
Theorem get_temporal_radial_row_local (c : R) (u : ndarray2 C)
  (u_t buf : ndarray2 R) (t kz : list R) (it : nat) :
  length kz = shape0 u ->
  shape1 u_t = shape1 u -> shape0 u_t = length t ->
  shape1 buf = shape1 u -> shape0 buf = 1%nat ->
  (it < length t)%nat ->
  exists out row,
    get_temporal_radial c u u_t t kz = Ok out /\
    get_temporal_radial c u buf [nth it t 0] kz = Ok row /\
    forall ir, (ir < shape1 u)%nat -> item2 out it ir = item2 row 0 ir.
Proof.
  intros Hk H1 H0 B1 B0 Hit.
  destruct (get_temporal_radial_ok c u u_t t kz)
    as (out & E & _ & _ & Ho); auto.
  destruct (get_temporal_radial_ok c u buf [nth it t 0] kz)
    as (row & Er & _ & _ & Hr); auto.
  exists out, row. repeat split; auto.
  intros ir Hir. rewrite Ho, Hr. in_range. reflexivity.
Qed.

Lemma get_temporal_radial_row_local_witness :
  exists out row,
    get_temporal_radial 1 (ones 2 1) (zeros 2 1) [0; 1] [0; PI] = Ok out /\
    get_temporal_radial 1 (ones 2 1) (zeros 1 1) [nth 1 [0; 1] 0] [0; PI]
    = Ok row /\
    forall ir, (ir < 1)%nat -> item2 out 1 ir = item2 row 0 ir.
Proof.
  apply (get_temporal_radial_row_local 1 (ones 2 1) (zeros 2 1) (zeros 1 1)
           [0; 1] [0; PI] 1); simpl; lia.
Defined.

Lemma Rsum_map_Re_column2 (u : ndarray2 C) (ir : nat) :
  Rsum (map Re (column2 u ir))
  = Rsum (map (fun k => Re (item2 u k ir)) (seq 0 (shape0 u))).
Proof. unfold column2. now rewrite map_map. Qed.

(** At a requested time [0] every phase factor is one: the radial-resolved
    kernel returns the sum over the modes of the real parts of [u]. *)
Theorem get_temporal_radial_at_time_0 (c : R) (u : ndarray2 C)
  (u_t : ndarray2 R) (t kz : list R) (it : nat) :
  length kz = shape0 u ->
  shape1 u_t = shape1 u -> shape0 u_t = length t ->
  (it < length t)%nat -> nth it t 0 = 0 ->
  exists out,
    get_temporal_radial c u u_t t kz = Ok out /\
    forall ir, (ir < shape1 u)%nat ->
      item2 out it ir
      = Rsum (map (fun k => Re (item2 u k ir)) (seq 0 (shape0 u))).
Proof.
  intros Hk H1 H0 Hit Ht.
  destruct (get_temporal_radial_ok c u u_t t kz)
    as (out & E & _ & _ & Ho); auto.
  exists out. split; [exact E|]. intros ir Hir. rewrite Ho. in_range.
  rewrite Ht, synth_at_0 by (now rewrite column2_length).
  apply Rsum_map_Re_column2.
Qed.

Lemma get_temporal_radial_at_time_0_witness :
  exists out,
    get_temporal_radial 1 (ones 2 1) (zeros 1 1) [0] [0; PI] = Ok out /\
    forall ir, (ir < 1)%nat ->
      item2 out 0 ir
      = Rsum (map (fun k => Re (item2 (ones 2 1) k ir)) (seq 0 2)).
Proof.
  apply (get_temporal_radial_at_time_0 1 (ones 2 1) (zeros 1 1) [0] [0; PI]
           0); simpl; auto; lia.
Defined.

Lemma Cabs_nonneg (z : C) : 0 <= Cabs z.
Proof. unfold Cabs. apply sqrt_pos. Qed.

Lemma rotation_le (a b s k : R) :
  s * s + k * k = 1 -> (a * k - b * s) * (a * k - b * s) <= a * a + b * b.
Proof.
  intros Hsc.
  assert (Hy : 0 <= (a * s + b * k) * (a * s + b * k))
    by apply Rle_0_sqr.
  assert (E : a * a + b * b
              = (a * k - b * s) * (a * k - b * s)
                + (a * s + b * k) * (a * s + b * k)).
  { transitivity ((a * a + b * b) * (s * s + k * k));
      [rewrite Hsc; ring | ring]. }
  rewrite E. lra.
Qed.

Lemma Re_Cmul_expi_le (z : C) (theta : R) :
  Rabs (Re (Cmul z (expi theta))) <= Cabs z.
Proof.
  unfold Cmul, expi, Cabs, Re, Im. cbn [fst snd].
  rewrite <- sqrt_Rsqr_abs. apply sqrt_le_1_alt. unfold Rsqr.
  apply rotation_le. apply (sin2_cos2 theta).
Qed.

Lemma Rsum_abs_le (f g : nat -> R) (l : list nat) :
  (forall i, Rabs (f i) <= g i) ->
  Rabs (Rsum (map f l)) <= Rsum (map g l).
Proof.
  intros H. induction l as [|x l IH]; cbn [map].
  - unfold Rsum. simpl. rewrite Rabs_R0. lra.
  - rewrite !Rsum_cons. eapply Rle_trans; [apply Rabs_triang|].
    specialize (H x). lra.
Qed.

(** No output of the radial-resolved kernel exceeds, in absolute value, the
    sum over the modes of the magnitudes of [u] at that radial index. *)
Theorem get_temporal_radial_bounded (c : R) (u : ndarray2 C)
  (u_t : ndarray2 R) (t kz : list R) :
  length kz = shape0 u ->
  shape1 u_t = shape1 u -> shape0 u_t = length t ->
  exists out,
    get_temporal_radial c u u_t t kz = Ok out /\
    forall it ir, (it < length t)%nat -> (ir < shape1 u)%nat ->
      Rabs (item2 out it ir)
      <= Rsum (map (fun k => Cabs (item2 u k ir)) (seq 0 (shape0 u))).
Proof.
  intros Hk H1 H0.
  destruct (get_temporal_radial_ok c u u_t t kz)
    as (out & E & _ & _ & Ho); auto.
  exists out. split; [exact E|]. intros it ir Hit Hir. rewrite Ho. in_range.
  rewrite synth_index by assumption.
  apply (Rsum_abs_le
           (fun i => Re (Cmul (item2 u i ir)
                           (expi (nth i kz 0 * c * nth it t 0))))
           (fun k => Cabs (item2 u k ir))).
  intros i. apply Re_Cmul_expi_le.
Qed.

Lemma get_temporal_radial_bounded_witness :
  exists out,
    get_temporal_radial 1 (ones 2 1) (zeros 1 1) [3] [0; PI] = Ok out /\
    forall it ir, (it < 1)%nat -> (ir < 1)%nat ->
      Rabs (item2 out it ir)
      <= Rsum (map (fun k => Cabs (item2 (ones 2 1) k ir)) (seq 0 2)).
Proof.
  apply (get_temporal_radial_bounded 1 (ones 2 1) (zeros 1 1) [3] [0; PI]);
    reflexivity.
Defined.

(** ** Further properties of the single-time evaluator and the profile *)

Section ProfileMore.

Variables (c e m_e : R) (cubic_spline : list R -> list R -> result (R -> R)).

(** The field is axisymmetric: two query points at the same distance from
    the axis get the same answer, at any [z]. *)
Theorem E_field_axisymmetric (self : AxipropLaser) (x y z x' y' z' t : R) :
  x * x + y * y = x' * x' + y' * y' ->
  fst (E_field c cubic_spline self x y z t)
  = fst (E_field c cubic_spline self x' y' z' t).
Proof. intros H. unfold E_field. cbn [fst]. now rewrite H. Qed.

(** Asking later is the same as a larger [time_offset]: a query at [t + d]
    returns what the profile with offset [time_offset + d] returns at [t]. *)
Theorem E_field_time_shift (self : AxipropLaser) (x y z t d : R) :
  fst (E_field c cubic_spline self x y z (t + d))
  = fst (E_field c cubic_spline
           (with_time_offset self (self_time_offset self + d)) x y z t).
Proof.
  unfold E_field, with_time_offset. cbn [fst self_time_offset self_u self_kz
    self_r self_E0x self_E0y].
  now replace (t + (self_time_offset self + d))
    with (t + d + self_time_offset self) by ring.
Qed.

(** Construction divides by [lambda0] and raises [ZeroDivisionError] when it
    is zero.  Otherwise it succeeds and stores the direction of propagation
    [+1], the arrays and the offset as given, and the amplitudes
    [E0 * cos theta_pol] and [E0 * sin theta_pol] with
    [E0 = a0 * m_e * c^2 * (2*pi/lambda0) / e]; every field the profile then
    returns is the interpolant of [(r, u_r)] at the radius of the query
    point times these two amplitudes, and its y component is exactly zero
    for [theta_pol = 0]. *)
Theorem AxipropLaser_polarization (a0 : R) (u : ndarray2 C) (kz r : list R)
  (time_offset theta_pol lambda0 : R) :
  (lambda0 = 0 ->
   AxipropLaser_init c e m_e a0 u kz r time_offset theta_pol lambda0
   = Raise ZeroDivisionError) /\
  (lambda0 <> 0 -> e <> 0 ->
   exists self,
     AxipropLaser_init c e m_e a0 u kz r time_offset theta_pol lambda0
     = Ok self /\
     propag_direction (base self) = 1 /\ gpu_capable (base self) = false /\
     self_u self = u /\ self_kz self = kz /\ self_r self = r /\
     self_time_offset self = time_offset /\
     self_E0x self
     = a0 * m_e * c ^ 2 * (2 * PI / lambda0) / e * cos theta_pol /\
     self_E0y self
     = a0 * m_e * c ^ 2 * (2 * PI / lambda0) / e * sin theta_pol /\
     forall x y z t u_r fu,
       get_E_r c (t + time_offset) u kz = Ok u_r ->
       interp1d cubic_spline r u_r = Ok fu ->
       fst (E_field c cubic_spline self x y z t)
       = Ok (self_E0x self * fu (sqrt (x * x + y * y)),
             self_E0y self * fu (sqrt (x * x + y * y))) /\
       (theta_pol = 0 ->
        exists Ex, fst (E_field c cubic_spline self x y z t) = Ok (Ex, 0))).
Proof.
  unfold AxipropLaser_init, float_div. cbn [LaserProfile_init py_assert bind].
  split.
  - intros ->. destruct (Req_EM_T 0 0) as [_|N]; [reflexivity|].
    now contradiction N.
  - intros Hl He.
    destruct (Req_EM_T lambda0 0) as [E|_]; [contradiction|]. cbn [bind].
    destruct (Req_EM_T e 0) as [E|_]; [contradiction|]. cbn [bind].
    eexists. split; [reflexivity|].
    cbn [base propag_direction gpu_capable self_u self_kz self_r
         self_time_offset self_E0x self_E0y].
    repeat (split; [reflexivity|]).
    intros x y z t u_r fu Hu Hf. unfold E_field.
    cbn [fst self_time_offset self_u self_kz self_r self_E0x self_E0y].
    rewrite Hu. cbn [bind]. rewrite Hf. cbn [bind].
    split; [reflexivity|].
    intros ->. eexists. f_equal. f_equal. rewrite sin_0. ring.
Qed.

End ProfileMore.

Lemma AxipropLaser_polarization_witness :
  AxipropLaser_init 1 1 1 1 (ones 1 2) [0] [0; 1] 0 0 0
  = Raise ZeroDivisionError /\
  exists self,
    AxipropLaser_init 1 1 1 1 (ones 1 2) [0] [0; 1] 0 0 1 = Ok self /\
    forall x y z,
      exists Ex,
        fst (E_field 1 (fun _ _ => Ok (fun _ => 1)) self x y z 0)
        = Ok (Ex, 0).
Proof.
  split.
  - apply (proj1 (AxipropLaser_polarization 1 1 1 (fun _ _ => Ok (fun _ => 1))
                    1 (ones 1 2) [0] [0; 1] 0 0 0)). reflexivity.
  - destruct (proj2 (AxipropLaser_polarization 1 1 1
                       (fun _ _ => Ok (fun _ => 1))
                       1 (ones 1 2) [0] [0; 1] 0 0 1))
      as (self & E & _ & _ & _ & _ & _ & _ & _ & _ & H); try lra.
    exists self. split; [exact E|]. intros x y z.
    destruct (H x y z 0 [1 / 2; 1 / 2]
                (fun x_new =>
                   if Rlt_dec x_new (x_min [0; 1]) then 0
                   else if Rlt_dec (x_max [0; 1]) x_new then 0 else 1))
      as (_ & Hy).
    + rewrite get_E_r_ok by reflexivity. cbn [ones shape0 shape1 seq map].
      replace (0 + 0) with 0 by ring. rewrite !synth_at_0 by reflexivity.
      unfold column2, ones, Cone, Rsum, Re. simpl.
      do 2 f_equal; [|f_equal]; lra.
    + reflexivity.
    + now apply Hy.
Defined.

Lemma E_field_axisymmetric_witness :
  fst (E_field 1 (fun _ _ => Ok (fun _ => 1)) sample_laser 3 4 0 0)
  = fst (E_field 1 (fun _ _ => Ok (fun _ => 1)) sample_laser 5 0 7 0).
Proof.
  apply (E_field_axisymmetric 1 (fun _ _ => Ok (fun _ => 1)) sample_laser
           3 4 0 5 0 7 0). lra.
Defined.

(** ** Further properties of the amplitude generator *)

(** [laser_from_fu] fails in one case only, a normalization over an empty
    radial axis, where the maximum of an empty array is asked for; without
    normalization it returns [fu] on the outer-product grid of [kz] and
    [r]. *)
Theorem laser_from_fu_outcome (fu : R -> R -> C) (kz r : list R) :
  (exists raw,
     laser_from_fu fu kz r false = Ok raw /\
     shape0 raw = length kz /\ shape1 raw = length r /\
     forall i j, item2 raw i j = fu (nth i kz 0) (nth j r 0)) /\
  (r = [] -> laser_from_fu fu kz r true = Raise ValueError) /\
  (r <> [] ->
   exists a0, laser_from_fu fu kz r true = Ok a0 /\
     shape0 a0 = length kz /\ shape1 a0 = length r).
Proof.
  unfold laser_from_fu. split; [|split].
  - eexists. split; [reflexivity|]. cbn [shape0 shape1 item2].
    repeat split. intros i j. now rewrite !Rmult_1_r.
  - intros ->. reflexivity.
  - intros Hr. destruct r as [|r0 r]; [congruence|].
    unfold sum0. cbn [abs_sq shape1 length seq map amax bind].
    eexists. split; [reflexivity|]. split; reflexivity.
Qed.

Lemma laser_from_fu_outcome_witness :
  laser_from_fu (fun _ _ => Cone) [0; 1] [] true = Raise ValueError /\
  exists a0, laser_from_fu (fun _ _ => Cone) [0; 1] [0] true = Ok a0 /\
    shape0 a0 = 2%nat /\ shape1 a0 = 1%nat.
Proof.
  destruct (laser_from_fu_outcome (fun _ _ => Cone) [0; 1] [])
    as (_ & E & _).
  destruct (laser_from_fu_outcome (fun _ _ => Cone) [0; 1] [0])
    as (_ & _ & N).
  split; [now apply E | apply N; discriminate].
Defined.

Lemma fold_Rmax_ge_init (l : list R) (x : R) : x <= fold_left Rmax l x.
Proof.
  revert x. induction l as [|y l IH]; intros x; simpl; [lra|].
  eapply Rle_trans; [apply Rmax_l | apply IH].
Qed.

Lemma fold_Rmax_ge_in (l : list R) (x y : R) :
  In y l -> y <= fold_left Rmax l x.
Proof.
  revert x. induction l as [|w l IH]; intros x []; simpl.
  - subst. eapply Rle_trans; [apply Rmax_r | apply fold_Rmax_ge_init].
  - now apply IH.
Qed.

Lemma amax_ge (l : list R) (m y : R) : amax l = Ok m -> In y l -> y <= m.
Proof.
  destruct l as [|x l]; [discriminate|]. simpl. intros [= <-] [<-|H].
  - apply fold_Rmax_ge_init.
  - now apply fold_Rmax_ge_in.
Qed.

Lemma Rsum_nonneg (f : nat -> R) (l : list nat) :
  (forall k, 0 <= f k) -> 0 <= Rsum (map f l).
Proof.
  intros Hf. induction l as [|y l IH]; cbn [map];
    [unfold Rsum; simpl; lra | rewrite Rsum_cons; specialize (Hf y); lra].
Qed.

Lemma Rsum_ge_term (f : nat -> R) (l : list nat) (i : nat) :
  (forall k, 0 <= f k) -> In i l -> f i <= Rsum (map f l).
Proof.
  intros Hf. induction l as [|x l IH]; intros []; cbn [map];
    rewrite Rsum_cons.
  - subst. pose proof (Rsum_nonneg f l Hf). lra.
  - specialize (Hf x). specialize (IH H). lra.
Qed.

Lemma Cabs_sq_nonneg (z : C) : 0 <= Cabs z ^ 2.
Proof. rewrite Cabs_sq. nra. Qed.

(** After normalization no cell of the grid has a magnitude above one. *)
Theorem laser_from_fu_cells_le_1 (fu : R -> R -> C) (kz r : list R)
  (raw : ndarray2 C) (m : R) :
  laser_from_fu fu kz r false = Ok raw ->
  amax (sum0 (abs_sq raw)) = Ok m -> 0 < m ->
  exists a0,
    laser_from_fu fu kz r true = Ok a0 /\
    forall i j, (i < length kz)%nat -> (j < length r)%nat ->
      Cabs (item2 a0 i j) <= 1.
Proof.
  unfold laser_from_fu. intros [= <-] Hmax Hm. rewrite Hmax. cbn [bind].
  eexists. split; [reflexivity|]. intros i j Hi Hj.
  cbn [div2 item2].
  set (z := fu (nth i kz 0 * 1) (nth j r 0 * 1)).
  assert (Hz : Cabs z ^ 2 <= m).
  { eapply Rle_trans; [|apply (amax_ge _ _ _ Hmax)].
    - apply (Rsum_ge_term
               (fun i' => Cabs (fu (nth i' kz 0 * 1) (nth j r 0 * 1)) ^ 2)
               (seq 0 (length kz)) i);
        [intros; apply Cabs_sq_nonneg | apply in_seq; lia].
    - unfold sum0. cbn [abs_sq shape0 shape1 item2].
      apply (in_map (fun j' => Rsum (map (fun i' =>
               Cabs (fu (nth i' kz 0 * 1) (nth j' r 0 * 1)) ^ 2)
               (seq 0 (length kz)))) (seq 0 (length r)) j).
      apply in_seq. lia. }
  pose proof (Cabs_sq_div z m Hm) as Hd.
  pose proof (Cabs_nonneg (Cdivr z (sqrt m))) as Hn.
  assert (Cabs (Cdivr z (sqrt m)) ^ 2 <= 1).
  { rewrite Hd. apply (Rmult_le_reg_r m); [assumption|].
    unfold Rdiv. rewrite Rmult_assoc, Rinv_l by lra. lra. }
  nra.
Qed.

Lemma laser_from_fu_cells_le_1_witness :
  exists a0,
    laser_from_fu (fun _ _ => (2, 0)) [0] [0] true = Ok a0 /\
    forall i j, (i < 1)%nat -> (j < 1)%nat -> Cabs (item2 a0 i j) <= 1.
Proof.
  apply (laser_from_fu_cells_le_1 (fun _ _ => (2, 0)) [0] [0]
           (mk2 1 1 (fun _ _ => (2, 0))) 4).
  - reflexivity.
  - unfold amax, sum0, abs_sq. cbn [shape0 shape1 item2 seq map fold_left].
    rewrite Cabs_sq. unfold Rsum, Re, Im. simpl. f_equal. lra.
  - lra.
Defined.

Lemma Cabs_sq_scale (k : R) (z : C) :
  Cabs (Cscale k z) ^ 2 = k * k * Cabs z ^ 2.
Proof.
  rewrite !Cabs_sq. unfold Cscale, Cmul, RtoC, Re, Im. cbn [fst snd]. ring.
Qed.

Lemma amax_scale (l : list R) (v a : R) :
  0 < a -> amax l = Ok v -> amax (map (fun y => a * y) l) = Ok (a * v).
Proof.
  intros Ha H. assert (Hi : 0 < / a) by now apply Rinv_0_lt_compat.
  rewrite (map_ext _ (fun y => y / / a)) by (intros; field; lra).
  rewrite (amax_div l v (/ a) Hi H). f_equal. field. lra.
Qed.

Lemma Cdivr_scale (k s : R) (z : C) :
  0 < k -> s <> 0 -> Cdivr (Cscale k z) (k * s) = Cdivr z s.
Proof.
  intros Hk Hs. unfold Cdivr, Cscale, Cmul, RtoC, Re, Im. cbn [fst snd].
  f_equal; field; split; lra.
Qed.

(** Normalization removes an overall positive factor: [fu] and [k * fu]
    with [k > 0] give the same normalized grid. *)
Theorem laser_from_fu_scale_invariant (fu : R -> R -> C) (kz r : list R)
  (raw : ndarray2 C) (m k : R) :
  laser_from_fu fu kz r false = Ok raw ->
  amax (sum0 (abs_sq raw)) = Ok m -> 0 < m -> 0 < k ->
  exists a0 a0',
    laser_from_fu fu kz r true = Ok a0 /\
    laser_from_fu (fun a b => Cscale k (fu a b)) kz r true = Ok a0' /\
    shape0 a0' = shape0 a0 /\ shape1 a0' = shape1 a0 /\
    forall i j, item2 a0' i j = item2 a0 i j.
Proof.
  unfold laser_from_fu. intros [= <-] Hmax Hm Hk. rewrite Hmax. cbn [bind].
  assert (Hs : amax (sum0 (abs_sq
                 (mk2 (length kz) (length r)
                    (fun i j => Cscale k (fu (nth i kz 0 * 1)
                                            (nth j r 0 * 1))))))
               = Ok (k * k * m)).
  { rewrite <- (amax_scale _ m (k * k) ltac:(nra) Hmax). f_equal.
    unfold sum0, abs_sq. cbn [shape0 shape1 item2]. rewrite map_map.
    apply map_ext. intros j.
    rewrite <- (Rsum_scale (k * k)
      (fun i => Cabs (fu (nth i kz 0 * 1) (nth j r 0 * 1)) ^ 2)).
    f_equal. apply map_ext. intros i. apply Cabs_sq_scale. }
  rewrite Hs. cbn [bind].
  do 2 eexists. split; [reflexivity|]. split; [reflexivity|].
  cbn [div2 shape0 shape1 item2]. repeat split.
  intros i j.
  assert (Hq : sqrt (k * k * m) = k * sqrt m).
  { rewrite sqrt_mult by nra. rewrite sqrt_square by lra. reflexivity. }
  rewrite Hq. apply Cdivr_scale; [assumption|].
  intros E. apply sqrt_eq_0 in E; lra.
Qed.

Lemma laser_from_fu_scale_invariant_witness :
  exists a0 a0',
    laser_from_fu (fun _ _ => (2, 0)) [0] [0] true = Ok a0 /\
    laser_from_fu (fun a b => Cscale 3 ((fun _ _ => (2, 0)) a b)) [0] [0] true
    = Ok a0' /\
    shape0 a0' = shape0 a0 /\ shape1 a0' = shape1 a0 /\
    forall i j, item2 a0' i j = item2 a0 i j.
Proof.
  apply (laser_from_fu_scale_invariant (fun _ _ => (2, 0)) [0] [0]
           (mk2 1 1 (fun _ _ => (2, 0))) 4 3).
  - reflexivity.
  - unfold amax, sum0, abs_sq. cbn [shape0 shape1 item2 seq map fold_left].
    rewrite Cabs_sq. unfold Rsum, Re, Im. simpl. f_equal. lra.
  - lra.
  - lra.
Defined.

(** ** The parabolic mirror phase *)

Lemma mirror_cell (f0 : R) (kz r : list R) (i j : nat) :
  (j < length r)%nat ->
  item2 (mirror_parabolic f0 kz r) i j
  = expi (2 * (nth j r 0 ^ 2 / 4 / f0) * nth i kz 0).
Proof.
  intros Hj. unfold mirror_parabolic. cbn [item2].
  rewrite (nth_indep _ 0 ((fun rj => rj ^ 2 / 4 / f0) 0))
    by (now rewrite length_map).
  rewrite (map_nth (fun rj => rj ^ 2 / 4 / f0)).
  unfold Cexp, Cmul, RtoC, expi, Re, Im. cbn [fst snd].
  match goal with
  | |- (exp ?a * cos ?b, exp ?a * sin ?b) = (cos ?d, _) =>
      replace a with 0 by ring; replace b with d by ring
  end.
  rewrite exp_0. f_equal; ring.
Qed.

Lemma Cabs_expi (theta : R) : Cabs (expi theta) = 1.
Proof.
  unfold Cabs, expi, Re, Im. cbn [fst snd].
  pose proof (sin2_cos2 theta) as H. unfold Rsqr in H.
  replace (cos theta * cos theta + sin theta * sin theta) with 1 by lra.
  apply sqrt_1.
Qed.

(** For a focal length [f0 <> 0] the mirror mask has one cell per pair of a
    wavenumber and a radial point, each of modulus one; it is exactly one on
    the axis ([r = 0]) and at zero wavenumber. *)
Theorem mirror_parabolic_pure_phase (f0 : R) (kz r : list R) :
  f0 <> 0 ->
  shape0 (mirror_parabolic f0 kz r) = length kz /\
  shape1 (mirror_parabolic f0 kz r) = length r /\
  forall i j, (i < length kz)%nat -> (j < length r)%nat ->
    Cabs (item2 (mirror_parabolic f0 kz r) i j) = 1 /\
    (nth j r 0 = 0 \/ nth i kz 0 = 0 ->
     item2 (mirror_parabolic f0 kz r) i j = Cone).
Proof.
  intros Hf.
  split; [reflexivity|]. split; [reflexivity|]. intros i j Hi Hj. split.
  - rewrite mirror_cell by assumption. apply Cabs_expi.
  - intros H. rewrite mirror_cell by assumption. unfold expi, Cone.
    match goal with |- (cos ?a, sin ?a) = _ => replace a with 0 end.
    + now rewrite cos_0, sin_0.
    + destruct H as [-> | ->]; unfold Rdiv; ring.
Qed.

Lemma mirror_parabolic_pure_phase_witness :
  Cabs (item2 (mirror_parabolic 2 [3; 5] [0; 1]) 1 1) = 1 /\
  item2 (mirror_parabolic 2 [3; 5] [0; 1]) 1 0 = Cone.
Proof.
  destruct (mirror_parabolic_pure_phase 2 [3; 5] [0; 1]) as (_ & _ & H);
    [lra|].
  split.
  - apply (H 1%nat 1%nat); simpl; lia.
  - apply (H 1%nat 0%nat); simpl; auto; lia.
Defined.

Lemma Cabs_mul_expi (z : C) (theta : R) : Cabs (Cmul z (expi theta)) = Cabs z.
Proof.
  unfold Cabs, Cmul, expi, Re, Im. cbn [fst snd]. f_equal.
  pose proof (sin2_cos2 theta) as H. unfold Rsqr in H.
  transitivity ((fst z * fst z + snd z * snd z)
                * (sin theta * sin theta + cos theta * cos theta));
    [ring | rewrite H; ring].
Qed.

(** Reflecting a field off a mirror of focal length [f0 <> 0], the
    element-wise product of the field with the mask, changes no magnitude:
    every cell keeps its modulus, and so does the energy measure that
    [laser_from_fu] normalizes. *)
Theorem mirror_parabolic_keeps_energy (f0 : R) (kz r : list R)
  (a : ndarray2 C) :
  f0 <> 0 ->
  shape0 a = length kz -> shape1 a = length r ->
  exists p,
    mul_2_2 a (mirror_parabolic f0 kz r) = Ok p /\
    shape0 p = length kz /\ shape1 p = length r /\
    (forall i j, (i < length kz)%nat -> (j < length r)%nat ->
       Cabs (item2 p i j) = Cabs (item2 a i j)) /\
    sum0 (abs_sq p) = sum0 (abs_sq a) /\
    amax (sum0 (abs_sq p)) = amax (sum0 (abs_sq a)).
Proof.
  intros Hf H0 H1. unfold mul_2_2.
  replace (shape0 (mirror_parabolic f0 kz r)) with (length kz) by reflexivity.
  replace (shape1 (mirror_parabolic f0 kz r)) with (length r) by reflexivity.
  rewrite H0, H1, !bdim_same. cbn [bind].
  eexists. split; [reflexivity|]. cbn [shape0 shape1 item2].
  assert (Hc : forall i j, (i < length kz)%nat -> (j < length r)%nat ->
            Cabs (Cmul (item2 a (bidx (length kz) i) (bidx (length r) j))
                    (item2 (mirror_parabolic f0 kz r)
                       (bidx (length kz) i) (bidx (length r) j)))
            = Cabs (item2 a i j)).
  { intros i j Hi Hj. rewrite !bidx_lt by assumption.
    rewrite mirror_cell by assumption. apply Cabs_mul_expi. }
  assert (Hs : sum0 (abs_sq
                 (mk2 (length kz) (length r)
                    (fun i j =>
                       Cmul (item2 a (bidx (length kz) i) (bidx (length r) j))
                         (item2 (mirror_parabolic f0 kz r)
                            (bidx (length kz) i) (bidx (length r) j)))))
               = sum0 (abs_sq a)).
  { unfold sum0, abs_sq. cbn [shape0 shape1 item2]. rewrite H0, H1.
    apply map_ext_in. intros j Hj. apply in_seq in Hj. f_equal.
    apply map_ext_in. intros i Hi. apply in_seq in Hi.
    rewrite Hc by lia. reflexivity. }
  repeat split; auto. now rewrite Hs.
Qed.

Lemma mirror_parabolic_keeps_energy_witness :
  exists p,
    mul_2_2 (ones 2 2) (mirror_parabolic 2 [3; 5] [0; 1]) = Ok p /\
    shape0 p = 2%nat /\ shape1 p = 2%nat /\
    (forall i j, (i < 2)%nat -> (j < 2)%nat ->
       Cabs (item2 p i j) = Cabs (item2 (ones 2 2) i j)) /\
    sum0 (abs_sq p) = sum0 (abs_sq (ones 2 2)) /\
    amax (sum0 (abs_sq p)) = amax (sum0 (abs_sq (ones 2 2))).
Proof.
  apply (mirror_parabolic_keeps_energy 2 [3; 5] [0; 1] (ones 2 2));
    [lra | reflexivity ..].
Defined.

Lemma Cmul_expi_opp (theta : R) : Cmul (expi theta) (expi (- theta)) = Cone.
Proof.
  unfold Cmul, expi, Cone, Re, Im. cbn [fst snd].
  rewrite cos_neg, sin_neg.
  pose proof (sin2_cos2 theta) as H. unfold Rsqr in H.
  f_equal; [lra | ring].
Qed.

(** The mask of focal length [-f0] undoes the mask of focal length [f0]:
    their element-wise product is one in every cell. *)
Theorem mirror_parabolic_inverse (f0 : R) (kz r : list R) :
  f0 <> 0 ->
  exists p,
    mul_2_2 (mirror_parabolic f0 kz r) (mirror_parabolic (- f0) kz r) = Ok p /\
    shape0 p = length kz /\ shape1 p = length r /\
    forall i j, (i < length kz)%nat -> (j < length r)%nat ->
      item2 p i j = Cone.
Proof.
  intros Hf. unfold mul_2_2.
  replace (shape0 (mirror_parabolic f0 kz r)) with (length kz) by reflexivity.
  replace (shape1 (mirror_parabolic f0 kz r)) with (length r) by reflexivity.
  replace (shape0 (mirror_parabolic (- f0) kz r)) with (length kz)
    by reflexivity.
  replace (shape1 (mirror_parabolic (- f0) kz r)) with (length r)
    by reflexivity.
  rewrite !bdim_same. cbn [bind].
  eexists. split; [reflexivity|]. cbn [shape0 shape1 item2]. repeat split.
  intros i j Hi Hj. rewrite !bidx_lt by assumption.
  rewrite !mirror_cell by assumption.
  replace (2 * (nth j r 0 ^ 2 / 4 / - f0) * nth i kz 0)
    with (- (2 * (nth j r 0 ^ 2 / 4 / f0) * nth i kz 0)) by (field; lra).
  apply Cmul_expi_opp.
Qed.

Lemma mirror_parabolic_inverse_witness :
  exists p,
    mul_2_2 (mirror_parabolic 2 [3; 5] [0; 1])
      (mirror_parabolic (- 2) [3; 5] [0; 1]) = Ok p /\
    shape0 p = 2%nat /\ shape1 p = 2%nat /\
    forall i j, (i < 2)%nat -> (j < 2)%nat -> item2 p i j = Cone.
Proof.
  apply (mirror_parabolic_inverse 2 [3; 5] [0; 1]). lra.
Defined.

(** ** Further properties of the WarpX writers *)

Section WriterMore.

Variables (elt : Type) (elt_tobytes : elt -> list byte).

Lemma item1_empty (i : Z) : item1 elt [] i = Raise IndexError.
Proof.
  unfold item1, py_index. cbn [length Z.of_nat Z.opp].
  destruct (Z.leb_spec 0 i), (Z.ltb_spec i 0); cbn [andb bind];
    try reflexivity; lia.
Qed.

Lemma write_file_ok (x y t E : list elt) :
  (len elt t < 2 ^ 32)%N -> (len elt x < 2 ^ 32)%N ->
  (len elt y < 2 ^ 32)%N ->
  write_file elt elt_tobytes x y t E
  = Ok (header x00 (len elt t) (len elt x) (len elt y)
        ++ tobytes elt elt_tobytes t ++ tobytes elt elt_tobytes x
        ++ tobytes elt elt_tobytes y ++ tobytes elt elt_tobytes E).
Proof.
  intros Ht Hx Hy. unfold write_file.
  change (to_bytes 0 1) with (Ok [x00]). cbn [bind].
  rewrite (proj1 (to_bytes_ok _ 4 Ht)), (proj1 (to_bytes_ok _ 4 Hx)),
    (proj1 (to_bytes_ok _ 4 Hy)). cbn [bind].
  unfold header. f_equal. rewrite <- ?app_assoc. reflexivity.
Qed.

Lemma write_file_unf_ok (d : elt) (x y t E : list elt) :
  (len elt t < 2 ^ 32)%N -> (len elt x < 2 ^ 32)%N ->
  (len elt y < 2 ^ 32)%N ->
  t <> [] -> x <> [] -> y <> [] ->
  write_file_unf elt elt_tobytes x y t E
  = Ok (header x01 (len elt t) (len elt x) (len elt y)
        ++ elt_tobytes (hd d t) ++ elt_tobytes (last t d)
        ++ elt_tobytes (hd d x) ++ elt_tobytes (last x d)
        ++ (if (len elt y =? 1)%N then elt_tobytes (hd d y)
            else elt_tobytes (hd d y) ++ elt_tobytes (last y d))
        ++ tobytes elt elt_tobytes E).
Proof.
  intros Ht Hx Hy Nt Nx Ny. unfold write_file_unf.
  change (to_bytes 1 1) with (Ok [x01]). cbn [bind].
  rewrite (proj1 (to_bytes_ok _ 4 Ht)), (proj1 (to_bytes_ok _ 4 Hx)),
    (proj1 (to_bytes_ok _ 4 Hy)). cbn [bind].
  rewrite (item1_first elt t d Nt), (item1_last elt t d Nt).
  rewrite (item1_first elt x d Nx), (item1_last elt x d Nx).
  rewrite (item1_first elt y d Ny), (item1_last elt y d Ny).
  cbn [bind]. unfold header.
  destruct (len elt y =? 1)%N; cbn [bind]; f_equal;
    rewrite <- ?app_assoc; reflexivity.
Qed.

(** The uniform-mesh writer reads the first and last sample of every axis
    and so fails with an [IndexError] as soon as one axis is empty; the
    non-uniform writer accepts the same arguments. *)
Theorem write_file_unf_empty_axis (x y t E : list elt) :
  (len elt t < 2 ^ 32)%N -> (len elt x < 2 ^ 32)%N ->
  (len elt y < 2 ^ 32)%N ->
  t = [] \/ x = [] \/ y = [] ->
  write_file_unf elt elt_tobytes x y t E = Raise IndexError /\
  exists f, write_file elt elt_tobytes x y t E = Ok f.
Proof.
  intros Ht Hx Hy H. split.
  - unfold write_file_unf.
    change (to_bytes 1 1) with (Ok [x01]). cbn [bind].
    rewrite (proj1 (to_bytes_ok _ 4 Ht)), (proj1 (to_bytes_ok _ 4 Hx)),
      (proj1 (to_bytes_ok _ 4 Hy)). cbn [bind].
    destruct t as [|t0 t']; [now rewrite item1_empty|].
    rewrite (item1_first elt (t0 :: t') t0), (item1_last elt (t0 :: t') t0)
      by discriminate. cbn [bind].
    destruct x as [|x0 x']; [now rewrite item1_empty|].
    rewrite (item1_first elt (x0 :: x') x0), (item1_last elt (x0 :: x') x0)
      by discriminate. cbn [bind].
    destruct y as [|y0 y']; [|destruct H as [|[|]]; discriminate].
    change (len elt [] =? 1)%N with false. cbv iota.
    now rewrite item1_empty.
  - eexists. now apply write_file_ok.
Qed.

Lemma tobytes_length (w : nat) (a : list elt) :
  (forall v, length (elt_tobytes v) = w) ->
  length (tobytes elt elt_tobytes a) = (w * length a)%nat.
Proof.
  intros Hw. unfold tobytes. induction a as [|v a IH]; cbn [flat_map length];
    [lia|]. rewrite length_app, IH, Hw. lia.
Qed.

Lemma header_length (flag : byte) (nt nx ny : N) :
  length (header flag nt nx ny) = 13%nat.
Proof.
  unfold header. cbn [length]. now rewrite !length_app, !to_bytes_le_length.
Qed.

(** With elements of [w] bytes each, the non-uniform file has
    [13 + w * (len(t) + len(x) + len(y) + E.size)] bytes, and the
    uniform-mesh file [13 + w * (4 + n + E.size)] with [n = 1] for a
    single-point y-axis and [n = 2] otherwise. *)
Theorem write_file_size (w : nat) (x y t E : list elt) :
  (forall v, length (elt_tobytes v) = w) ->
  (len elt t < 2 ^ 32)%N -> (len elt x < 2 ^ 32)%N ->
  (len elt y < 2 ^ 32)%N ->
  (exists f, write_file elt elt_tobytes x y t E = Ok f /\
     length f = (13 + w * (length t + length x + length y + length E))%nat) /\
  (t <> [] -> x <> [] -> y <> [] ->
   exists f, write_file_unf elt elt_tobytes x y t E = Ok f /\
     length f = (13 + w * (4 + (if (length y =? 1)%nat then 1 else 2)
                           + length E))%nat).
Proof.
  intros Hw Ht Hx Hy. split.
  - eexists. split; [now apply write_file_ok|].
    rewrite !length_app, header_length, !(tobytes_length w) by assumption.
    lia.
  - intros Nt Nx Ny. destruct t as [|d t']; [congruence|].
    eexists. split; [now apply (write_file_unf_ok d)|].
    rewrite !length_app, header_length, !Hw.
    replace (len elt y =? 1)%N with (length y =? 1)%nat.
    + destruct (length y =? 1)%nat;
        rewrite ?length_app, ?Hw, (tobytes_length w) by assumption; lia.
    + unfold len. destruct (Nat.eqb_spec (length y) 1) as [->|Hn];
        [reflexivity|]. symmetry. apply N.eqb_neq. lia.
Qed.

(** On axes of two samples each (the y-axis may also have one) both writers
    emit the same bytes after the flag byte, which alone tells the two
    formats apart. *)
Theorem write_file_unf_same_payload (x y t E : list elt) :
  length t = 2%nat -> length x = 2%nat ->
  length y = 1%nat \/ length y = 2%nat ->
  exists f g,
    write_file_unf elt elt_tobytes x y t E = Ok (x01 :: f) /\
    write_file elt elt_tobytes x y t E = Ok (x00 :: g) /\
    f = g.
Proof.
  intros Lt Lx Ly.
  destruct t as [|t0 [|t1 [|]]]; try discriminate Lt.
  destruct x as [|x0 [|x1 [|]]]; try discriminate Lx.
  destruct y as [|y0 [|y1 [|]]]; try (destruct Ly; discriminate).
  - rewrite (write_file_unf_ok t0), write_file_ok
      by (reflexivity || discriminate).
    unfold header. cbn [app]. do 2 eexists.
    split; [reflexivity|]. split; [reflexivity|].
    change (len elt [y0] =? 1)%N with true.
    cbn [hd last tobytes flat_map]. rewrite <- ?app_assoc, ?app_nil_r.
    reflexivity.
  - rewrite (write_file_unf_ok t0), write_file_ok
      by (reflexivity || discriminate).
    unfold header. cbn [app]. do 2 eexists.
    split; [reflexivity|]. split; [reflexivity|].
    change (len elt [y0; y1] =? 1)%N with false.
    cbn [hd last tobytes flat_map]. rewrite <- ?app_assoc, ?app_nil_r.
    reflexivity.
Qed.

End WriterMore.

Lemma write_file_unf_empty_axis_witness :
  write_file_unf byte (fun b => [b]) [x0a] [] [x01; x02] [xff]
  = Raise IndexError /\
  exists f, write_file byte (fun b => [b]) [x0a] [] [x01; x02] [xff] = Ok f.
Proof.
  apply (write_file_unf_empty_axis byte (fun b => [b]) [x0a] [] [x01; x02]
           [xff]); try reflexivity. right. right. reflexivity.
Defined.

Lemma write_file_size_witness :
  (exists f, write_file byte (fun b => [b]) [x0a] [x0b] [x01; x02] [xff]
             = Ok f /\ length f = 18%nat) /\
  (exists f, write_file_unf byte (fun b => [b]) [x0a] [x0b] [x01; x02] [xff]
             = Ok f /\ length f = 19%nat).
Proof.
  destruct (write_file_size byte (fun b => [b]) 1 [x0a] [x0b] [x01; x02]
              [xff]) as (A & B); try reflexivity.
  split; [exact A | apply B; discriminate].
Defined.

Lemma write_file_unf_same_payload_witness :
  exists f g,
    write_file_unf byte (fun b => [b]) [x0a; x0b] [x0c] [x01; x02] [xff]
    = Ok (x01 :: f) /\
    write_file byte (fun b => [b]) [x0a; x0b] [x0c] [x01; x02] [xff]
    = Ok (x00 :: g) /\
    f = g.
Proof.
  apply (write_file_unf_same_payload byte (fun b => [b]) [x0a; x0b] [x0c]
           [x01; x02] [xff]); auto.
Defined.

(** ** The accumulate kernel's assertion *)

Lemma get1_no_assert (a : list R) (i : nat) : get1 a i <> Raise AssertionError.
Proof. unfold get1. destruct (nth_error a i); discriminate. Qed.

Lemma set1_no_assert (a : list R) (i : nat) (v : R) :
  set1 a i v <> Raise AssertionError.
Proof. unfold set1. destruct (i <? length a)%nat; discriminate. Qed.

(** The accumulate kernel's one assertion compares the length of [u_t] with
    the radial size [Nr] of [u]: it fires exactly when they differ, whatever
    the number of requested times, and nothing else in the kernel raises an
    [AssertionError]. *)
Theorem get_temporal_1d_assertion (c : R) (u : ndarray2 C)
  (u_t t kz : list R) (Nr_loc : nat) :
  get_temporal_1d c u u_t t kz Nr_loc = Raise AssertionError
  <-> length u_t <> shape1 u.
Proof.
  unfold get_temporal_1d. cbv zeta.
  destruct (Nat.eqb_spec (length u_t) (shape1 u)) as [E|E];
    cbn [py_assert bind].
  - split; [|intros H; contradiction]. intros H. exfalso. revert H.
    apply for_range_not_raise. intros it s.
    apply for_range_not_raise. intros ir s'.
    apply bind_not_raise; [apply get1_no_assert|]. intros old.
    apply bind_not_raise; [apply col2_no_assert|]. intros column.
    apply bind_not_raise; [apply mode_sum_no_assert|]. intros v.
    apply set1_no_assert.
  - split; [intros _; exact E | reflexivity].
Qed.

Lemma get_temporal_1d_assertion_witness :
  get_temporal_1d 1 (ones 1 2) [0] [0] [0] 2 = Raise AssertionError.
Proof.
  apply (proj2 (get_temporal_1d_assertion 1 (ones 1 2) [0] [0] [0] 2)).
  simpl. lia.
Defined.

(** ** What a field query does to the heap *)

Lemma grows_ret {A : Type} (a : A) : grows (st_ret a).
Proof. intros h. exists []. now rewrite app_nil_r. Qed.

Lemma grows_lift {A : Type} (r : result A) : grows (st_lift r).
Proof. intros h. exists []. now rewrite app_nil_r. Qed.

Lemma grows_new (v : cell) : grows (st_new v).
Proof. intros h. now exists [v]. Qed.

Lemma grows_bind {A B : Type} (m : St A) (k : A -> St B) :
  grows m -> (forall a, grows (k a)) -> grows (st_bind m k).
Proof.
  intros Hm Hk h. unfold st_bind. destruct (Hm h) as (l & E).
  destruct (m h) as ([a|e] & h'); cbn [snd] in *; subst.
  - destruct (Hk a (h ++ l)) as (l' & E'). exists (l ++ l').
    now rewrite E', app_assoc.
  - now exists l.
Qed.

Lemma grows_load_R (p : nat) : grows (load_R p).
Proof.
  intros h. exists []. rewrite app_nil_r. unfold load_R.
  now destruct (nth_error h p) as [[]|].
Qed.

Lemma grows_load_C (p : nat) : grows (load_C p).
Proof.
  intros h. exists []. rewrite app_nil_r. unfold load_C.
  now destruct (nth_error h p) as [[]|].
Qed.

Lemma grows_load_R2 (p : nat) : grows (load_R2 p).
Proof.
  intros h. exists []. rewrite app_nil_r. unfold load_R2.
  now destruct (nth_error h p) as [[]|].
Qed.

Lemma grows_load_C2 (p : nat) : grows (load_C2 p).
Proof.
  intros h. exists []. rewrite app_nil_r. unfold load_C2.
  now destruct (nth_error h p) as [[]|].
Qed.

Lemma grows_getattr {A : Type} (self : nat) (attr : laser_obj -> A) :
  grows (getattr self attr).
Proof.
  intros h. exists []. rewrite app_nil_r. unfold getattr.
  now destruct (nth_error h self) as [[]|].
Qed.

Create HintDb heap.

#[local] Hint Resolve grows_ret grows_lift grows_new grows_load_R
  grows_load_C grows_load_R2 grows_load_C2 grows_getattr : heap.

Ltac grows :=
  repeat first
    [ solve [auto with heap]
    | apply grows_bind; [|intros] ].

Lemma grows_get_E_r_st (c t : R) (u kz : nat) : grows (get_E_r_st c t u kz).
Proof.
  unfold get_E_r_st, np_exp_phase, np_ones_like, np_T, np_mul_1_2,
    np_mul_2_2, np_real, np_sum0, np_size, np_div. grows.
Qed.

Lemma grows_E_field_st (c : R)
  (cubic_spline : list R -> list R -> result (R -> R))
  (self : nat) (x y z t : R) :
  grows (E_field_st c cubic_spline self x y z t).
Proof.
  unfold E_field_st, interp1d_st. grows.
Qed.

Lemma grows_keeps {A : Type} (m : St A) (h : heap) (p : nat) :
  grows m -> (p < length h)%nat -> nth_error (snd (m h)) p = nth_error h p.
Proof.
  intros Hm Hp. destruct (Hm h) as (l & ->). now apply nth_error_app1.
Qed.

Lemma holds_app (h l : heap) (p : nat) (v : cell) :
  holds h p v -> holds (h ++ l) p v.
Proof.
  unfold holds. intros H. rewrite nth_error_app1; [exact H|].
  apply nth_error_Some. congruence.
Qed.

Lemma holds_new (h : heap) (v : cell) : holds (h ++ [v]) (length h) v.
Proof. unfold holds. now rewrite nth_error_app2, Nat.sub_diag. Qed.

#[local] Hint Resolve holds_app holds_new : heap.

Lemma st_bind_run {A B : Type} (m : St A) (k : A -> St B) (h h' : heap)
  (a : A) :
  m h = (Ok a, h') -> st_bind m k h = k a h'.
Proof. intros E. unfold st_bind. now rewrite E. Qed.

Lemma st_bind_raise {A B : Type} (m : St A) (k : A -> St B) (h h' : heap)
  (e : exn) :
  m h = (Raise e, h') -> st_bind m k h = (Raise e, h').
Proof. intros E. unfold st_bind. now rewrite E. Qed.

Lemma load_R_run (h : heap) (p : nat) (a : list R) :
  holds h p (ArrR a) -> load_R p h = (Ok a, h).
Proof. unfold holds, load_R. now intros ->. Qed.

Lemma load_C_run (h : heap) (p : nat) (a : list C) :
  holds h p (ArrC a) -> load_C p h = (Ok a, h).
Proof. unfold holds, load_C. now intros ->. Qed.

Lemma load_R2_run (h : heap) (p : nat) (a : ndarray2 R) :
  holds h p (ArrR2 a) -> load_R2 p h = (Ok a, h).
Proof. unfold holds, load_R2. now intros ->. Qed.

Lemma load_C2_run (h : heap) (p : nat) (a : ndarray2 C) :
  holds h p (ArrC2 a) -> load_C2 p h = (Ok a, h).
Proof. unfold holds, load_C2. now intros ->. Qed.

Lemma getattr_run {A : Type} (h : heap) (self : nat) (o : laser_obj)
  (attr : laser_obj -> A) :
  holds h self (Obj o) -> getattr self attr h = (Ok (attr o), h).
Proof. unfold holds, getattr. now intros ->. Qed.

Section HeapRuns.

Variable c : R.
Variable cubic_spline : list R -> list R -> result (R -> R).

Lemma np_exp_phase_run (h : heap) (kz : nat) (a : list R) (t : R) :
  holds h kz (ArrR a) ->
  np_exp_phase c kz t h = (Ok (length h), h ++ [ArrC (FFT_factor c a t)]).
Proof.
  intros H. unfold np_exp_phase.
  now rewrite (st_bind_run _ _ h h a (load_R_run h kz a H)).
Qed.

Lemma np_ones_like_run (h : heap) (u : nat) (a : ndarray2 C) :
  holds h u (ArrC2 a) ->
  np_ones_like u h = (Ok (length h), h ++ [ArrC2 (ones_like a)]).
Proof.
  intros H. unfold np_ones_like.
  now rewrite (st_bind_run _ _ h h a (load_C2_run h u a H)).
Qed.

Lemma np_T_run (h : heap) (p : nat) (a : ndarray2 C) :
  holds h p (ArrC2 a) ->
  np_T p h = (Ok (length h), h ++ [ArrC2 (transpose a)]).
Proof.
  intros H. unfold np_T.
  now rewrite (st_bind_run _ _ h h a (load_C2_run h p a H)).
Qed.

Lemma np_real_run (h : heap) (p : nat) (a : ndarray2 C) :
  holds h p (ArrC2 a) ->
  np_real p h = (Ok (length h), h ++ [ArrR2 (real2 a)]).
Proof.
  intros H. unfold np_real.
  now rewrite (st_bind_run _ _ h h a (load_C2_run h p a H)).
Qed.

Lemma np_sum0_run (h : heap) (p : nat) (a : ndarray2 R) :
  holds h p (ArrR2 a) ->
  np_sum0 p h = (Ok (length h), h ++ [ArrR (sum0 a)]).
Proof.
  intros H. unfold np_sum0.
  now rewrite (st_bind_run _ _ h h a (load_R2_run h p a H)).
Qed.

Lemma np_size_run (h : heap) (p : nat) (a : ndarray2 C) :
  holds h p (ArrC2 a) -> np_size p h = (Ok (size2 a), h).
Proof.
  intros H. unfold np_size.
  now rewrite (st_bind_run _ _ h h a (load_C2_run h p a H)).
Qed.

Lemma np_div_run (h : heap) (p : nat) (a : list R) (n : nat) :
  holds h p (ArrR a) ->
  np_div p n h = (Ok (length h), h ++ [ArrR (map (fun s => s / INR n) a)]).
Proof.
  intros H. unfold np_div.
  now rewrite (st_bind_run _ _ h h a (load_R_run h p a H)).
Qed.

Lemma np_mul_1_2_run (h : heap) (p q : nat) (v : list C) (a : ndarray2 C) :
  holds h p (ArrC v) -> holds h q (ArrC2 a) ->
  np_mul_1_2 p q h
  = match mul_1_2 v a with
    | Ok r => (Ok (length h), h ++ [ArrC2 r])
    | Raise e => (Raise e, h)
    end.
Proof.
  intros Hp Hq. unfold np_mul_1_2.
  rewrite (st_bind_run _ _ h h v (load_C_run h p v Hp)).
  rewrite (st_bind_run _ _ h h a (load_C2_run h q a Hq)).
  unfold st_bind, st_lift. now destruct (mul_1_2 v a).
Qed.

Lemma np_mul_2_2_run (h : heap) (p q : nat) (a b : ndarray2 C) :
  holds h p (ArrC2 a) -> holds h q (ArrC2 b) ->
  np_mul_2_2 p q h
  = match mul_2_2 a b with
    | Ok r => (Ok (length h), h ++ [ArrC2 r])
    | Raise e => (Raise e, h)
    end.
Proof.
  intros Hp Hq. unfold np_mul_2_2.
  rewrite (st_bind_run _ _ h h a (load_C2_run h p a Hp)).
  rewrite (st_bind_run _ _ h h b (load_C2_run h q b Hq)).
  unfold st_bind, st_lift. now destruct (mul_2_2 a b).
Qed.

(** On a heap that holds [u] and [kz], the heap-level evaluator raises what
    [get_E_r] raises and, when [get_E_r] returns, returns a reference to
    the array [get_E_r] returns. *)
Lemma get_E_r_st_run (t : R) (pu pkz : nat) (h : heap) (u : ndarray2 C)
  (kz : list R) :
  holds h pu (ArrC2 u) -> holds h pkz (ArrR kz) ->
  exists l,
    snd (get_E_r_st c t pu pkz h) = h ++ l /\
    match get_E_r c t u kz with
    | Ok u_r => exists p, fst (get_E_r_st c t pu pkz h) = Ok p /\
                          holds (h ++ l) p (ArrR u_r)
    | Raise e => fst (get_E_r_st c t pu pkz h) = Raise e
    end.
Proof.
  intros Hu Hkz.
  destruct (get_E_r_st c t pu pkz h) as [res hf] eqn:Run. cbn [fst snd].
  unfold get_E_r. unfold get_E_r_st in Run.
  erewrite st_bind_run in Run by (apply np_exp_phase_run; eassumption).
  erewrite st_bind_run in Run by (apply np_ones_like_run; eauto with heap).
  erewrite st_bind_run in Run by (apply np_T_run; eauto with heap).
  set (h3 := ((h ++ [ArrC (FFT_factor c kz t)]) ++ [ArrC2 (ones_like u)])
             ++ [ArrC2 (transpose (ones_like u))]) in *.
  assert (E3 : h3 = h ++ [ArrC (FFT_factor c kz t); ArrC2 (ones_like u);
                          ArrC2 (transpose (ones_like u))])
    by (unfold h3; now rewrite <- !app_assoc).
  unfold st_bind at 1 in Run.
  rewrite (np_mul_1_2_run h3 _ _ (FFT_factor c kz t)
             (transpose (ones_like u)))
    in Run by (unfold h3; eauto with heap).
  destruct (mul_1_2 (FFT_factor c kz t) (transpose (ones_like u)))
    as [Ft|e]; cbn [bind].
  2:{ injection Run as <- <-. eexists. split; [exact E3 | reflexivity]. }
  erewrite st_bind_run in Run by (apply np_T_run; eauto with heap).
  set (h5 := (h3 ++ [ArrC2 Ft]) ++ [ArrC2 (transpose Ft)]) in *.
  assert (E5 : h5 = h ++ [ArrC (FFT_factor c kz t); ArrC2 (ones_like u);
                          ArrC2 (transpose (ones_like u)); ArrC2 Ft;
                          ArrC2 (transpose Ft)])
    by (unfold h5; rewrite E3; now rewrite <- !app_assoc).
  assert (Hu5 : holds h5 pu (ArrC2 u)) by (rewrite E5; eauto with heap).
  assert (HF5 : holds h5 (length (h3 ++ [ArrC2 Ft])) (ArrC2 (transpose Ft)))
    by (unfold h5; eauto with heap).
  unfold st_bind at 1 in Run.
  rewrite (np_mul_2_2_run h5 _ _ u (transpose Ft) Hu5 HF5) in Run.
  destruct (mul_2_2 u (transpose Ft)) as [p|e]; cbn [bind].
  2:{ injection Run as <- <-. eexists. split; [exact E5 | reflexivity]. }
  erewrite st_bind_run in Run by (apply np_real_run; eauto with heap).
  erewrite st_bind_run in Run by (apply np_sum0_run; eauto with heap).
  erewrite st_bind_run in Run
    by (apply (np_size_run _ _ (transpose Ft)); eauto 8 with heap).
  erewrite st_bind_run in Run by (apply np_div_run; eauto with heap).
  unfold st_ret in Run. injection Run as <- <-.
  exists [ArrC (FFT_factor c kz t); ArrC2 (ones_like u);
          ArrC2 (transpose (ones_like u)); ArrC2 Ft; ArrC2 (transpose Ft);
          ArrC2 p; ArrR2 (real2 p); ArrR (sum0 (real2 p));
          ArrR (map (fun s => s / INR (size2 (transpose Ft)))
                  (sum0 (real2 p)))].
  assert (E9 : forall v,
            ((((h5 ++ [ArrC2 p]) ++ [ArrR2 (real2 p)])
              ++ [ArrR (sum0 (real2 p))]) ++ [v])
            = h ++ [ArrC (FFT_factor c kz t); ArrC2 (ones_like u);
                    ArrC2 (transpose (ones_like u)); ArrC2 Ft;
                    ArrC2 (transpose Ft); ArrC2 p; ArrR2 (real2 p);
                    ArrR (sum0 (real2 p)); v])
    by (intros v; rewrite E5, <- !app_assoc; reflexivity).
  split; [apply E9|].
  eexists. split; [reflexivity|]. rewrite <- E9. apply holds_new.
Qed.

End HeapRuns.

Section HeapProfile.

Variable c : R.
Variable cubic_spline : list R -> list R -> result (R -> R).

Lemma interp1d_st_run (h : heap) (px py : nat) (ax ay : list R) :
  holds h px (ArrR ax) -> holds h py (ArrR ay) ->
  interp1d_st cubic_spline px py h
  = (interp1d cubic_spline ax ay, h ++ [ArrR ax; ArrR ay]).
Proof.
  intros Hx Hy. unfold interp1d_st.
  erewrite st_bind_run by (apply load_R_run; eassumption).
  erewrite st_bind_run by (apply load_R_run; eassumption).
  erewrite st_bind_run by reflexivity.
  erewrite st_bind_run by reflexivity.
  erewrite st_bind_run by (apply load_R_run; eauto with heap).
  erewrite st_bind_run by (apply load_R_run; eauto with heap).
  unfold st_lift. now rewrite <- app_assoc.
Qed.

(** On a heap that holds the profile object and its three arrays, a field
    query returns, or raises, what [E_field] does on the values. *)
Lemma E_field_st_value (h : heap) (self : nat) (o : laser_obj)
  (u : ndarray2 C) (kz r : list R) (x y z t : R) :
  holds h self (Obj o) ->
  holds h (obj_u o) (ArrC2 u) -> holds h (obj_kz o) (ArrR kz) ->
  holds h (obj_r o) (ArrR r) ->
  fst (E_field_st c cubic_spline self x y z t h)
  = fst (E_field c cubic_spline (laser_of o u kz r) x y z t).
Proof.
  intros Ho Hu Hkz Hr.
  destruct (E_field_st c cubic_spline self x y z t h) as [res hf] eqn:Run.
  cbn [fst]. unfold E_field, laser_of.
  cbn [fst self_time_offset self_u self_kz self_r self_E0x self_E0y].
  unfold E_field_st in Run.
  erewrite st_bind_run in Run by (apply getattr_run; eassumption).
  erewrite st_bind_run in Run by (apply getattr_run; eassumption).
  erewrite st_bind_run in Run by (apply getattr_run; eassumption).
  destruct (get_E_r_st_run c (t + obj_time_offset o) (obj_u o) (obj_kz o)
              h u kz Hu Hkz) as (l & Hl & Hres).
  destruct (get_E_r_st c (t + obj_time_offset o) (obj_u o) (obj_kz o) h)
    as [r1 h1] eqn:G.
  cbn [fst snd] in Hl, Hres. subst h1.
  unfold st_bind at 1 in Run. rewrite G in Run.
  destruct (get_E_r c (t + obj_time_offset o) u kz) as [u_r|e]; cbn [bind].
  - destruct Hres as (p & -> & Hp).
    erewrite st_bind_run in Run by (apply getattr_run; eauto with heap).
    unfold st_bind at 1 in Run.
    rewrite (interp1d_st_run (h ++ l) (obj_r o) p r u_r) in Run
      by eauto with heap.
    destruct (interp1d cubic_spline r u_r) as [fu|e]; cbn [bind].
    + erewrite st_bind_run in Run by (apply getattr_run; eauto with heap).
      erewrite st_bind_run in Run by (apply getattr_run; eauto with heap).
      unfold st_ret in Run. now injection Run as <- <-.
    + now injection Run as <- <-.
  - subst r1. now injection Run as <- <-.
Qed.

(** C9: a field query does not depend on [z], and it leaves every cell of
    the heap it was started on as it found it, whether it returns or raises:
    it only adds cells.  In particular the profile object still refers to
    the same [u], [kz] and [r], and these arrays hold what they held.  The
    value returned is the one [E_field] computes from the arrays. *)
Theorem E_field_z_invariant_pure (h : heap) (self : nat) (x y z1 z2 t : R) :
  E_field_st c cubic_spline self x y z1 t h
  = E_field_st c cubic_spline self x y z2 t h /\
  (exists l, snd (E_field_st c cubic_spline self x y z1 t h) = h ++ l) /\
  (forall p, (p < length h)%nat ->
     nth_error (snd (E_field_st c cubic_spline self x y z1 t h)) p
     = nth_error h p) /\
  (forall o u kz r,
     holds h self (Obj o) ->
     holds h (obj_u o) (ArrC2 u) -> holds h (obj_kz o) (ArrR kz) ->
     holds h (obj_r o) (ArrR r) ->
     let h' := snd (E_field_st c cubic_spline self x y z1 t h) in
     holds h' self (Obj o) /\
     holds h' (obj_u o) (ArrC2 u) /\ holds h' (obj_kz o) (ArrR kz) /\
     holds h' (obj_r o) (ArrR r) /\
     fst (E_field_st c cubic_spline self x y z1 t h)
     = fst (E_field c cubic_spline (laser_of o u kz r) x y z1 t)).
Proof.
  pose proof (grows_E_field_st c cubic_spline self x y z1 t) as G.
  split; [reflexivity|]. split; [apply G|].
  split; [intros p Hp; now apply grows_keeps|].
  intros o u kz r Ho Hu Hkz Hr h'. subst h'.
  destruct (G h) as (l & ->).
  repeat (split; [now apply holds_app|]).
  now apply E_field_st_value.
Qed.

End HeapProfile.

Lemma E_field_z_invariant_pure_witness :
  let run := E_field_st 1 (fun _ _ => Ok (fun _ => 1)) 0 3 4 0 0 sample_heap in
  holds (snd run) 0 (Obj (mk_laser_obj 1 2 3 0 1 0)) /\
  holds (snd run) 1 (ArrC2 (ones 1 2)) /\
  holds (snd run) 2 (ArrR [0]) /\
  holds (snd run) 3 (ArrR [0; 1]) /\
  fst run
  = fst (E_field 1 (fun _ _ => Ok (fun _ => 1))
           (laser_of (mk_laser_obj 1 2 3 0 1 0) (ones 1 2) [0] [0; 1])
           3 4 0 0).
Proof.
  apply (proj2 (proj2 (proj2
           (E_field_z_invariant_pure 1 (fun _ _ => Ok (fun _ => 1))
              sample_heap 0 3 4 0 7 0)))); reflexivity.
Defined.
